(** * AI attendance system: the matching and attendance core of [app.py]

    A shallow embedding of the decision logic of [app.py]: the attendance
    ledger ([mark_attendance]), the registry of known faces
    ([load_known_faces] and the "Register" handler), the recognition
    loop ([recognize_faces]) and the webcam loop.  The face_recognition
    library, OpenCV, pandas, the file system and Streamlit are
    collaborators: pictures and face encodings are abstract; the CSV file
    is the list of its lines as written and [pd.read_csv] gives the frame
    that the type inference of pandas makes of them; the directory of
    known faces is the set of its files, listed in the order the file
    system chooses; the widgets of the page are the list of messages they
    show. *)

From Stdlib Require Import List String Ascii Bool Arith Lia ZArith QArith Qabs.
From Stdlib Require Import Permutation.
Import ListNotations.

Local Open Scope string_scope.
Local Open Scope nat_scope.
Local Open Scope list_scope.

(** ** Python string methods

    A string is the list of its bytes (UTF-8).  The separators and the
    suffixes the program looks for are ASCII, so the methods that split
    and compare are exact on bytes; [lower] and [title] are those of
    ASCII text: a byte above 127 is left as it is and counts as an
    uncased character. *)

Module Str.

Definition chars : string -> list ascii := list_ascii_of_string.
Definition of_chars : list ascii -> string := string_of_list_ascii.

Definition is_upper (c : ascii) : bool :=
  let n := nat_of_ascii c in ((65 <=? n)%nat && (n <=? 90)%nat)%bool.

Definition is_lower (c : ascii) : bool :=
  let n := nat_of_ascii c in ((97 <=? n)%nat && (n <=? 122)%nat)%bool.

Definition is_cased (c : ascii) : bool := is_upper c || is_lower c.

Definition lower_char (c : ascii) : ascii :=
  if is_upper c then ascii_of_nat (nat_of_ascii c + 32) else c.

Definition upper_char (c : ascii) : ascii :=
  if is_lower c then ascii_of_nat (nat_of_ascii c - 32) else c.

(** [s.lower()], on ASCII letters; the program only asks whether the
    result ends with [.png], [.jpg] or [.jpeg]. *)
Definition lower (s : string) : string := of_chars (map lower_char (chars s)).

(** [s.replace(a, b)] for one-character [a] and [b] *)
Definition replace (a b : ascii) (s : string) : string :=
  of_chars (map (fun c => if Ascii.eqb c a then b else c) (chars s)).

(** [s.title()] on ASCII text: a character that follows a cased one is
    lowered, any other is raised. *)
Fixpoint title_from (previous_is_cased : bool) (s : list ascii) : list ascii :=
  match s with
  | [] => []
  | c :: rest =>
      (if previous_is_cased then lower_char c else upper_char c)
        :: title_from (is_cased c) rest
  end.

Definition title (s : string) : string := of_chars (title_from false (chars s)).

(** [s.endswith(suffix)] *)
Fixpoint is_prefix (p s : list ascii) : bool :=
  match p, s with
  | [], _ => true
  | a :: p', b :: s' => Ascii.eqb a b && is_prefix p' s'
  | _ :: _, [] => false
  end.

Definition endswith (s suffix : string) : bool :=
  is_prefix (rev (chars suffix)) (rev (chars s)).

(** The text before and the text after the last [sep] of [s], when [s]
    has one ([s.rfind(sep)]). *)
Fixpoint rsplit (sep : ascii) (s : list ascii) : option (list ascii * list ascii) :=
  match s with
  | [] => None
  | c :: rest =>
      match rsplit sep rest with
      | Some (before, after) => Some (c :: before, after)
      | None => if Ascii.eqb c sep then Some ([], rest) else None
      end
  end.

(** [s.split('.')[-1]] *)
Definition last_dot_field (s : string) : string :=
  match rsplit "."%char (chars s) with
  | Some (_, after) => of_chars after
  | None => s
  end.

(** [os.path.splitext(s)[0]] of [posixpath]: the last dot starts the
    extension when it stands after the last [/] and some character
    between that [/] and the dot is not a dot. *)
Definition splitext_root (s : string) : string :=
  match rsplit "."%char (chars s) with
  | Some (before, after) =>
      match rsplit "/"%char after with
      | Some _ => s
      | None =>
          let filename := match rsplit "/"%char before with
                          | Some (_, last) => last
                          | None => before
                          end in
          if forallb (fun c => Ascii.eqb c "."%char) filename then s
          else of_chars before
      end
  | None => s
  end.

End Str.


(** ** The attendance ledger: [attendance_web.csv] *)

(** One line of the CSV file as [to_csv] writes it, columns [Name], [Date],
    [Time]: the three texts of the line. *)
Record Row : Type := mkRow { Name : string; Date : string; Time : string }.

(** A value of the frame [pd.read_csv] returns.  pandas infers the type of
    each column from the texts in it: a value is the text of the file, or
    what the inference made of it (a number, a boolean or [NaN]), which
    [==] never finds equal to a [str]. *)
Inductive cell : Type :=
| text_cell (s : string)
| other_cell.

(** A row of the frame. *)
Record Cells : Type := mkCells { Name_cell : cell; Date_cell : cell; Time_cell : cell }.

Definition DataFrame : Type := list Cells.

(** A reading of [datetime.now()], through the two renderings the program
    takes of it: [strftime("%Y-%m-%d")] and [strftime("%H:%M:%S")]. *)
Record datetime : Type := mkDatetime { strftime_date : string; strftime_time : string }.

(** What the program shares with its environment: the lines of the CSV
    file under its header and the system clock, of which [ticks] readings
    have been taken. *)
Record World : Type := mkWorld {
  attendance_file : list Row;
  clock : nat -> datetime;
  ticks : nat
}.

(** Computations that read and write the world and may raise (an
    [IndexError] or [ValueError] of Python is [None]). *)
Definition M (A : Type) : Type := World -> option (A * World).

Definition ret {A : Type} (a : A) : M A := fun w => Some (a, w).

Definition bind {A B : Type} (m : M A) (k : A -> M B) : M B :=
  fun w => match m w with
           | Some (a, w') => k a w'
           | None => None
           end.

Definition raise_or {A : Type} (o : option A) : M A :=
  fun w => match o with
           | Some a => Some (a, w)
           | None => None
           end.

Declare Scope m_scope.
Delimit Scope m_scope with M.
Notation "x <- m ;; k" := (bind m (fun x => k))
  (at level 61, m at next level, right associativity) : m_scope.
Notation "m ;;; k" := (bind m (fun _ => k))
  (at level 61, right associativity) : m_scope.

(** [new_row.to_csv(ATTENDANCE_FILE, mode='a', header=False, index=False)] *)
Definition to_csv_append (new_row : Row) : M unit :=
  fun w => Some (tt, mkWorld (attendance_file w ++ [new_row]) (clock w) (ticks w)).

(** [datetime.now()] *)
Definition datetime_now : M datetime :=
  fun w => Some (clock w (ticks w), mkWorld (attendance_file w) (clock w) (S (ticks w))).

(** [value == s] for a value of the frame and a [str]. *)
Definition cell_eqb (c : cell) (s : string) : bool :=
  match c with
  | text_cell t => String.eqb t s
  | other_cell => false
  end.

(** [((df["Name"] == name) & (df["Date"] == today)).any()] *)
Definition any_name_date (df : DataFrame) (name today : string) : bool :=
  existsb (fun r => cell_eqb (Name_cell r) name && cell_eqb (Date_cell r) today) df.

(** The records the file holds for a person and a day. *)
Definition records_of (name date : string) (file : list Row) : list Row :=
  filter (fun r => String.eqb (Name r) name && String.eqb (Date r) date) file.

Definition recorded (name date : string) (file : list Row) : Prop :=
  exists r, In r file /\ Name r = name /\ Date r = date.

(** The invariant of the ledger: at most one record per person and day. *)
Definition at_most_once (file : list Row) : Prop :=
  forall name date, List.length (records_of name date file) <= 1.

(** The date the next call of [mark_attendance] will read. *)
Definition today_of (w : World) : string := strftime_date (clock w (ticks w)).

(** ** Faces, the registry of known faces and the page *)

(** A face box as face_recognition gives it: [(top, right, bottom, left)]. *)
Definition box : Type := (Z * Z * Z * Z)%type.

(** What the page shows: [st.warning], [st.error], [st.success], and the
    box in which Streamlit shows an exception that the script did not
    catch, after which the run of the script is over. *)
Inductive message : Type :=
| st_warning (text : string)
| st_error (text : string)
| st_success (text : string)
| st_exception.

(** How a loop of the script ends: it runs to its end, or a call in it
    raises. *)
Inductive ending : Type :=
| completed
| raised.

(** What [cv2.imwrite] does with a path under [known_faces]: it creates
    or replaces the file of the directory the path names; or it writes no
    file of the directory and returns [False], which the program does not
    look at (the path names a directory that does not exist, or a place
    outside [known_faces]); or it raises, having no encoder for the
    extension. *)
Inductive write_outcome : Type :=
| written_as (filename : string)
| not_written
| no_encoder.

(** [True in matches] *)
Definition True_in (matches : list bool) : bool := existsb (fun b => b) matches.

(** [matches.index(True)]; Python raises [ValueError] when there is none. *)
Fixpoint index_True (matches : list bool) : option nat :=
  match matches with
  | [] => None
  | true :: _ => Some 0
  | false :: rest => option_map S (index_True rest)
  end.

(** The three result lines of [recognize_faces]. *)
Definition marked_line (name : string) : string :=
  String.append "✓ " (String.append name " - Attendance Marked!").

Definition already_marked_line (name : string) : string :=
  String.append "✓ " (String.append name " - Already Marked Today").

Definition unknown_line : string := "✗ Unknown Person".

(** A small world to run the program on.  A picture is the list of the
    faces in it, a face its box and a one-dimensional encoding, and the
    distance of two encodings the absolute value of their difference.
    [read_csv] reads a missing-value marker as [NaN] and a column of whole
    numbers and missing values as numbers, and keeps every other text.
    The temporary file has a buffer of 4096 bytes.  [cv2.imwrite] writes
    every path without a directory separator and stores the picture as it
    is; the files are listed in the order in which they were created.
    Names are ASCII texts, with the [title] of ASCII. *)
Module Toy.

Definition encoding : Type := Q.
Definition image : Type := list (box * encoding).

Definition face_locations (img : image) : list box := map fst img.

Definition face_encodings (img : image) (known_face_locations : option (list box))
  : list encoding :=
  match known_face_locations with
  | None => map snd img
  | Some locations => firstn (List.length locations) (map snd img)
                      ++ repeat 0%Q (List.length locations - List.length img)
  end.

Definition distance (a b : encoding) : Q := Qabs (a - b).

Definition face_at (top : Z) (e : encoding) : box * encoding :=
  ((top, 10%Z, (top + 10)%Z, 0%Z), e).

Definition noon : datetime := mkDatetime "2024-01-01" "12:00:00".

Definition world (file : list Row) : World := mkWorld file (fun _ => noon) 0.

Definition na_values : list string :=
  [""; "#N/A"; "#N/A N/A"; "#NA"; "-1.#IND"; "-1.#QNAN"; "-NaN"; "-nan";
   "1.#IND"; "1.#QNAN"; "<NA>"; "N/A"; "NA"; "NULL"; "NaN"; "None"; "n/a";
   "nan"; "null"].

Definition is_na (s : string) : bool := existsb (String.eqb s) na_values.

Definition is_digit (c : ascii) : bool :=
  let n := nat_of_ascii c in ((48 <=? n)%nat && (n <=? 57)%nat)%bool.

Definition is_whole_number (s : string) : bool :=
  negb (String.eqb s "") && forallb is_digit (Str.chars s).

Definition keeps_text (column : list string) (s : string) : bool :=
  negb (is_na s)
  && negb (forallb (fun t => is_na t || is_whole_number t) column).

Definition buffer_size : N := 4096%N.

Definition write_target (path : string) : write_outcome :=
  if existsb (Ascii.eqb "/"%char) (Str.chars path) then not_written
  else written_as path.

Definition stored (path : string) (img : image) : image := img.

Definition listdir (dir : list (string * image)) : list (string * image) := dir.

Definition title : string -> string := Str.title.

End Toy.

Section App.

(** The collaborators: pictures, the 128-number encodings of faces,
    [face_recognition.face_locations], [face_recognition.face_encodings]
    (with its optional list of known locations) and the Euclidean
    distance of two encodings.  A distance is the rational number its
    floating-point value stands for; no floating-point number lies
    between the double nearest to 0.6 and 6/10, so comparing with 6/10
    is comparing with the tolerance 0.6 of the program. *)
Variable image : Type.
Variable encoding : Type.
Variable face_locations : image -> list box.
Variable face_encodings : image -> option (list box) -> list encoding.
Variable distance : encoding -> encoding -> Q.

(** The library returns one encoding per face location it is given. *)
Hypothesis face_encodings_length :
  forall img locations,
    List.length (face_encodings img (Some locations)) = List.length locations.

(** The type inference of [pd.read_csv]: whether a value written as [s]
    in a column whose values are written as [column] is, in the frame, the
    text [s].  It is not when the column reads as numbers or booleans
    (a "Name" column holding only 123) or when [s] is one of the markers
    of a missing value (None, NA, nan, ...).  The file is read in one
    piece, as pandas reads all but very large files. *)
Variable keeps_text : list string -> string -> bool.

(** The size in bytes of the buffer of the temporary file
    ([io.DEFAULT_BUFFER_SIZE] or the block size of the file system):
    [tfile.write(data)] keeps data
    of at most this size in the memory of the file object until the file
    is flushed or closed, and writes longer data to the file at once. *)
Variable buffer_size : N.

(** What [cv2.imwrite] does with [os.path.join(KNOWN_FACES_DIR, path)],
    on a file system with case-sensitive names. *)
Variable write_target : string -> write_outcome.

(** The picture [load_image_file] reads from a file that [cv2.imwrite]
    wrote from a picture under a path: the picture itself under a
    lossless encoder (png), the picture after compression under jpg. *)
Variable stored : string -> image -> image.

(** [str.title] of Python, which knows the letters of Unicode. *)
Variable title : string -> string.

(** ** [mark_attendance] *)

(** The frame of a file: each column is read with the type pandas infers
    for it. *)
Definition read_cell (column : list string) (s : string) : cell :=
  if keeps_text column s then text_cell s else other_cell.

Definition read_frame (file : list Row) : DataFrame :=
  map (fun r => mkCells (read_cell (map Name file) (Name r))
                        (read_cell (map Date file) (Date r))
                        (read_cell (map Time file) (Time r))) file.

(** [pd.read_csv(ATTENDANCE_FILE)] *)
Definition read_csv : M DataFrame := fun w => Some (read_frame (attendance_file w), w).

(** [mark_attendance(name)]: [true] is "marked", [false] "already marked". *)
Definition mark_attendance (name : string) : M bool :=
  (df <- read_csv ;;
   now1 <- datetime_now ;;
   let today := strftime_date now1 in
   if any_name_date df name today then ret false
   else
     now2 <- datetime_now ;;
     to_csv_append (mkRow name today (strftime_time now2)) ;;;
     ret true)%M.

(** A run of calls of [mark_attendance], one per name, as the recognition
    loop makes them face after face and frame after frame. *)
Fixpoint mark_each (names : list string) : M (list bool) :=
  match names with
  | [] => ret []
  | name :: rest =>
      (b <- mark_attendance name ;;
       bs <- mark_each rest ;;
       ret (b :: bs))%M
  end.

(** A text that [pd.read_csv] gives back as it was written, whatever
    else the column holds: a name such as Alice, a date such as
    2024-01-01. *)
Definition stays_text (s : string) : Prop :=
  forall column, In s column -> keeps_text column s = true.

(** ** The matcher and [recognize_faces] *)

(** Modelled from the spec: [face_recognition.face_distance] and
    [face_recognition.compare_faces] are library calls, not code of
    [app.py]; section 4.2 gives their contract: one flag per reference
    vector, set when the distance to the probe is at most the tolerance. *)
Definition face_distance (known : list encoding) (face_to_compare : encoding) : list Q :=
  map (fun e => distance e face_to_compare) known.

Definition compare_faces (known : list encoding) (face_to_compare : encoding)
                         (tolerance : Q) : list bool :=
  map (fun d => Qle_bool d tolerance) (face_distance known face_to_compare).

Definition tolerance : Q := 6 # 10.

(** [known_names[matches.index(True)] if True in matches else "Unknown"] *)
Definition label (known_names : list string) (matches : list bool) : option string :=
  if True_in matches then
    match index_True matches with
    | Some match_index => nth_error known_names match_index
    | None => None
    end
  else Some "Unknown".

(** The name [recognize_faces] gives to one face encoding. *)
Definition match_face (known_encodings : list encoding) (known_names : list string)
                      (face_encoding : encoding) : option string :=
  label known_names (compare_faces known_encodings face_encoding tolerance).

(** The first loop of [recognize_faces]: one result line per encoding,
    and an attendance mark for each face that matches. *)
Fixpoint recognize_loop (known_encodings : list encoding) (known_names : list string)
                        (encodings : list encoding) (results : list string)
  : M (list string) :=
  match encodings with
  | [] => ret results
  | face_encoding :: rest =>
      let matches := compare_faces known_encodings face_encoding tolerance in
      if True_in matches then
        (match_index <- raise_or (index_True matches) ;;
         name <- raise_or (nth_error known_names match_index) ;;
         marked <- mark_attendance name ;;
         recognize_loop known_encodings known_names rest
           (results ++ [if marked : bool
                        then String.append "✓ " (String.append name " - Attendance Marked!")
                        else String.append "✓ " (String.append name " - Already Marked Today")]))%M
      else
        recognize_loop known_encodings known_names rest (results ++ ["✗ Unknown Person"])
  end.

(** The names written under the boxes: the list comprehension of the
    second loop. *)
Fixpoint box_names (known_encodings : list encoding) (known_names : list string)
                   (encodings : list encoding) : option (list string) :=
  match encodings with
  | [] => Some []
  | enc :: rest =>
      match match_face known_encodings known_names enc with
      | Some name =>
          match box_names known_encodings known_names rest with
          | Some names => Some (name :: names)
          | None => None
          end
      | None => None
      end
  end.

(** [recognize_faces(image)]: the picture with the boxes and names drawn
    on it, the result lines and the number of faces. *)
Definition recognize_faces (known_encodings : list encoding) (known_names : list string)
                           (img : image)
  : M (image * list (box * string) * list string * nat) :=
  let locations := face_locations img in
  let encodings := face_encodings img (Some locations) in
  (results <- recognize_loop known_encodings known_names encodings [] ;;
   names <- raise_or (box_names known_encodings known_names encodings) ;;
   ret (img, combine locations names, results, List.length locations))%M.

(** The "Use Webcam" loop of the "Mark Attendance" tab: [frames] are the
    frames [cap.read()] gives before it fails and the loop breaks; the
    result is what [st.write] has written. *)
Fixpoint webcam_loop (known_encodings : list encoding) (known_names : list string)
                     (frames : list image) (written : list string)
  : M (list string) :=
  match frames with
  | [] => ret written
  | frame :: rest =>
      (r <- recognize_faces known_encodings known_names frame ;;
       let results := snd (fst r) in
       webcam_loop known_encodings known_names rest
         (if List.length results =? 0 then written
          else written ++ "Detected:" :: results))%M
  end.

(** ** The directory [known_faces] and the registry *)

(** The directory [known_faces]: its files, each with the picture
    [load_image_file] reads from it. *)
Definition Directory : Type := list (string * image).

(** [os.listdir(KNOWN_FACES_DIR)]: the files of the directory, in the
    order the file system chooses. *)
Variable listdir : Directory -> Directory.

Hypothesis listdir_Permutation : forall dir, Permutation (listdir dir) dir.

(** A file of that name is replaced, a new one is added. *)
Fixpoint write_file (filename : string) (img : image) (dir : Directory) : Directory :=
  match dir with
  | [] => [(filename, img)]
  | (p, old) :: rest =>
      if String.eqb p filename then (filename, img) :: rest
      else (p, old) :: write_file filename img rest
  end.

(** [cv2.imwrite(os.path.join(KNOWN_FACES_DIR, path), image)]; [None]
    when it raises.  The program does not look at what it returns. *)
Definition imwrite (path : string) (img : image) (dir : Directory) : option Directory :=
  match write_target path with
  | written_as filename => Some (write_file filename (stored path img) dir)
  | not_written => Some dir
  | no_encoder => None
  end.

(** [filename.lower().endswith(('.png', '.jpg', '.jpeg'))] *)
Definition is_picture_name (filename : string) : bool :=
  let l := Str.lower filename in
  Str.endswith l ".png" || Str.endswith l ".jpg" || Str.endswith l ".jpeg".

(** [os.path.splitext(filename)[0].replace("_", " ").title()] *)
Definition name_of_file (filename : string) : string :=
  title (Str.replace "_" " " (Str.splitext_root filename)).

(** The loop of [load_known_faces] over the listed files, with the two
    lists it fills and the warnings it shows.  The files of the directory
    are pictures that [load_image_file] can read. *)
Fixpoint load_loop (files : Directory) (known_encodings : list encoding)
                   (known_names : list string) (shown : list message)
  : list encoding * list string * list message :=
  match files with
  | [] => (known_encodings, known_names, shown)
  | (filename, img) :: rest =>
      if is_picture_name filename then
        match face_encodings img None with
        | first_encoding :: _ =>
            load_loop rest (known_encodings ++ [first_encoding])
                      (known_names ++ [name_of_file filename]) shown
        | [] =>
            load_loop rest known_encodings known_names
                      (shown ++ [st_warning (String.append "No face found in " filename)])
        end
      else load_loop rest known_encodings known_names shown
  end.

Definition load_known_faces (dir : Directory)
  : list encoding * list string * list message :=
  load_loop (listdir dir) [] [] [].

(** ** The "Register New Person" tab *)

(** An uploaded file: its name, the number of its bytes and the picture
    they are, if they are one. *)
Record UploadedFile : Type := mkUpload {
  file_name : string;
  file_size : N;
  file_image : option image
}.

(** [tfile.write(file.read())] and then
    [face_recognition.load_image_file(tfile.name)]: the file is read as
    it is on the disk, and the write was not flushed.  Data that fits in
    the buffer has not reached the file, which is empty; [load_image_file]
    raises on it, as it does on bytes that are not a picture ([None]). *)
Definition load_temp_file (file : UploadedFile) : option image :=
  if (file_size file <=? buffer_size)%N then None else file_image file.

(** [f"{name.replace(' ', '_')}.{file.name.split('.')[-1]}"], the file
    name that is joined to [KNOWN_FACES_DIR]. *)
Definition save_path (name : string) (file : UploadedFile) : string :=
  String.append (Str.replace " " "_" name)
                (String.append "." (Str.last_dot_field (file_name file))).

(** The loop of the "Register" button over the uploaded files: the
    directory and the messages when it ends, and how it ends.  An
    exception of [load_image_file] or [cv2.imwrite] is not caught: the
    loop stops there, with what was written and shown before. *)
Fixpoint register_loop (name : string) (uploaded_files : list UploadedFile)
                       (dir : Directory) (shown : list message)
  : Directory * list message * ending :=
  match uploaded_files with
  | [] => (dir, shown, completed)
  | file :: rest =>
      match load_temp_file file with
      | None => (dir, shown, raised)
      | Some img =>
          if List.length (face_encodings img None) =? 0 then
            register_loop name rest dir
              (shown ++ [st_error (String.append "No face detected in " (file_name file))])
          else
            match imwrite (save_path name file) img dir with
            | Some dir' => register_loop name rest dir' shown
            | None => (dir, shown, raised)
            end
      end
  end.

(** The state of the page: the directory and the two global lists. *)
Record App : Type := mkApp {
  known_faces_dir : Directory;
  known_encodings : list encoding;
  known_names : list string
}.

(** The start of the script: [known_encodings, known_names = load_known_faces()]. *)
Definition startup (dir : Directory) : App * list message :=
  let '(encs, names, shown) := load_known_faces dir in
  (mkApp dir encs names, shown).

(** The "Register New Person" tab:
    [if st.button("Register") and name and uploaded_files: ...].  When
    the loop raises, the run of the script ends with the exception on the
    page: no success message, and the two lists are not loaded again. *)
Definition register (clicked : bool) (name : string) (uploaded_files : list UploadedFile)
                    (app : App) : App * list message :=
  if clicked && negb (String.eqb name "")
     && negb (Nat.eqb (List.length uploaded_files) 0) then
    match register_loop name uploaded_files (known_faces_dir app) [] with
    | (dir, shown, completed) =>
        let shown := shown ++ [st_success (String.append name " registered successfully!")] in
        let '(encs, names, warnings) := load_known_faces dir in
        (mkApp dir encs names, shown ++ warnings)
    | (dir, shown, raised) =>
        (mkApp dir (known_encodings app) (known_names app), shown ++ [st_exception])
    end
  else (app, []).

(** The reference vectors the registry holds for a name. *)
Fixpoint vectors_of (name : string) (encs : list encoding) (names : list string)
  : list encoding :=
  match encs, names with
  | e :: encs', n :: names' =>
      if String.eqb n name then e :: vectors_of name encs' names'
      else vectors_of name encs' names'
  | _, _ => []
  end.

(** The message for a picture without a face. *)
Definition no_face_detected (file : UploadedFile) : message :=
  st_error (String.append "No face detected in " (file_name file)).

(** The picture of the file of the directory under a name. *)
Fixpoint read_file (path : string) (dir : Directory) : option image :=
  match dir with
  | [] => None
  | (p, img) :: rest => if String.eqb p path then Some img else read_file path rest
  end.

(** Whether [face_encodings(image)] finds a face in a picture. *)
Definition has_face (img : image) : bool :=
  negb (List.length (face_encodings img None) =? 0).

(** Whether the loop of "Register" finds a face in an uploaded file that
    it could load. *)
Definition upload_has_face (file : UploadedFile) : bool :=
  match load_temp_file file with
  | Some img => has_face img
  | None => false
  end.

(** The directory after the picture of an uploaded file was written under
    a name. *)
Definition save_upload (name : string) (dir : Directory) (file : UploadedFile)
  : Directory :=
  match load_temp_file file with
  | Some img =>
      match imwrite (save_path name file) img dir with
      | Some dir' => dir'
      | None => dir
      end
  | None => dir
  end.

(** The message for a file of the directory without a face. *)
Definition no_face_found (filename : string) : message :=
  st_warning (String.append "No face found in " filename).

(** ** The ledger *)

(** What [mark_attendance] finds in the frame is a record of the file,
    whose name and date were read as texts. *)
Lemma read_frame_found (file : list Row) (name date : string) :
  any_name_date (read_frame file) name date = true ->
  recorded name date file
  /\ keeps_text (map Name file) name = true
  /\ keeps_text (map Date file) date = true.
Proof.
  unfold any_name_date, read_frame. rewrite existsb_exists.
  intros (c & Hin & H). apply in_map_iff in Hin. destruct Hin as (r & <- & Hr).
  simpl in H. apply andb_true_iff in H. destruct H as [Hn Hd].
  unfold read_cell in Hn, Hd.
  destruct (keeps_text (map Name file) (Name r)) eqn:Kn; [|discriminate].
  destruct (keeps_text (map Date file) (Date r)) eqn:Kd; [|discriminate].
  simpl in Hn, Hd. apply String.eqb_eq in Hn. apply String.eqb_eq in Hd. subst.
  split; [|split]; trivial. now exists r.
Qed.

Lemma any_name_date_recorded (file : list Row) (name date : string) :
  any_name_date (read_frame file) name date = true -> recorded name date file.
Proof. intro H. now apply read_frame_found in H. Qed.

Lemma not_recorded_any (file : list Row) (name date : string) :
  ~ recorded name date file -> any_name_date (read_frame file) name date = false.
Proof.
  intro H. destruct (any_name_date (read_frame file) name date) eqn:E; trivial.
  apply any_name_date_recorded in E. contradiction.
Qed.

(** A name that the frame does not hold as a text is never found. *)
Lemma unread_name_not_found (file : list Row) (name date : string) :
  keeps_text (map Name file) name = false ->
  any_name_date (read_frame file) name date = false.
Proof.
  intro H. destruct (any_name_date (read_frame file) name date) eqn:E; trivial.
  apply read_frame_found in E. destruct E as (_ & K & _). congruence.
Qed.

(** A record whose name and date stay texts is found. *)
Lemma recorded_any_name_date (file : list Row) (name date : string) :
  stays_text name -> stays_text date ->
  recorded name date file -> any_name_date (read_frame file) name date = true.
Proof.
  intros Hn Hd (r & Hin & Hname & Hdate).
  unfold any_name_date, read_frame. apply existsb_exists.
  eexists. split; [apply in_map; exact Hin|]. simpl. unfold read_cell.
  rewrite Hname, Hdate.
  rewrite (Hn (map Name file)), (Hd (map Date file)).
  - simpl. now rewrite !String.eqb_refl.
  - rewrite <- Hdate. now apply in_map.
  - rewrite <- Hname. now apply in_map.
Qed.

Lemma records_of_app (name date : string) (file1 file2 : list Row) :
  records_of name date (file1 ++ file2)
  = records_of name date file1 ++ records_of name date file2.
Proof. unfold records_of. apply filter_app. Qed.

Lemma records_of_none (file : list Row) (name date : string) :
  ~ recorded name date file -> records_of name date file = [].
Proof.
  intro H. unfold records_of.
  destruct (filter _ file) as [|r rest] eqn:E; trivial.
  assert (Hin : In r (filter (fun r => String.eqb (Name r) name
                                        && String.eqb (Date r) date) file))
    by (rewrite E; now left).
  apply filter_In in Hin. destruct Hin as [Hin Hr].
  apply andb_true_iff in Hr. destruct Hr as [Hn Hd].
  apply String.eqb_eq in Hn. apply String.eqb_eq in Hd.
  elim H. now exists r.
Qed.

Lemma records_of_other (name date name' date' time' : string) :
  (String.eqb name' name && String.eqb date' date)%bool = false ->
  records_of name date [mkRow name' date' time'] = [].
Proof. unfold records_of. simpl. intros ->. reflexivity. Qed.

Lemma records_of_same (name date time : string) :
  records_of name date [mkRow name date time] = [mkRow name date time].
Proof. unfold records_of. simpl. now rewrite !String.eqb_refl. Qed.

Lemma recorded_app (name date : string) (file added : list Row) :
  recorded name date file -> recorded name date (file ++ added).
Proof.
  intros (r & Hin & H). exists r. split; trivial. apply in_or_app. now left.
Qed.

Lemma recorded_records_of (name date : string) (file : list Row) :
  recorded name date file -> 1 <= List.length (records_of name date file).
Proof.
  intros (r & Hin & <- & <-).
  assert (H : In r (records_of (Name r) (Date r) file)).
  { unfold records_of. apply filter_In. split; trivial.
    now rewrite !String.eqb_refl. }
  destruct (records_of (Name r) (Date r) file); [contradiction | simpl; lia].
Qed.

(** The two outcomes of a call, on the world it starts in. *)
Lemma mark_attendance_unfold (name : string) (w : World) :
  mark_attendance name w =
  if any_name_date (read_frame (attendance_file w)) name (today_of w)
  then Some (false, mkWorld (attendance_file w) (clock w) (S (ticks w)))
  else Some (true,
             mkWorld (attendance_file w
                        ++ [mkRow name (today_of w)
                                  (strftime_time (clock w (S (ticks w))))])
                     (clock w) (S (S (ticks w)))).
Proof.
  unfold mark_attendance, bind, read_csv, datetime_now, today_of. simpl.
  destruct (any_name_date (read_frame (attendance_file w)) name
              (strftime_date (clock w (ticks w)))); reflexivity.
Qed.

(** A call keeps the lines of the file and adds at most one, for the name
    and the date of the call; it adds none when it finds the record. *)
Lemma mark_attendance_step (name : string) (w : World) :
  exists b w', mark_attendance name w = Some (b, w')
    /\ clock w' = clock w
    /\ ((b = false /\ attendance_file w' = attendance_file w
         /\ recorded name (today_of w) (attendance_file w))
        \/ (b = true
            /\ any_name_date (read_frame (attendance_file w)) name (today_of w) = false
            /\ exists time,
                 attendance_file w'
                 = attendance_file w ++ [mkRow name (today_of w) time])).
Proof.
  rewrite mark_attendance_unfold.
  destruct (any_name_date (read_frame (attendance_file w)) name (today_of w)) eqn:E;
    eexists; eexists; (split; [reflexivity|]); simpl; split; trivial.
  - left. repeat split. now apply any_name_date_recorded.
  - right. repeat split. eexists. reflexivity.
Qed.

Lemma at_most_once_step (file : list Row) (name today time : string) :
  ~ recorded name today file ->
  at_most_once file ->
  at_most_once (file ++ [mkRow name today time]).
Proof.
  intros Hnew Hinv n d. rewrite records_of_app, length_app.
  destruct (String.eqb name n && String.eqb today d)%bool eqn:E.
  - apply andb_true_iff in E. destruct E as [En Ed].
    apply String.eqb_eq in En. apply String.eqb_eq in Ed. subst n d.
    rewrite (records_of_none _ _ _ Hnew), records_of_same. simpl. lia.
  - rewrite (records_of_other _ _ _ _ _ E). simpl. specialize (Hinv n d). lia.
Qed.

(** A call for a name and on a date that stay texts keeps the invariant. *)
Lemma mark_attendance_invariant (name : string) (w : World) :
  stays_text name -> stays_text (today_of w) ->
  exists b w', mark_attendance name w = Some (b, w')
    /\ clock w' = clock w
    /\ (exists added, attendance_file w' = attendance_file w ++ added)
    /\ (at_most_once (attendance_file w) -> at_most_once (attendance_file w')).
Proof.
  intros Hn Hd.
  destruct (mark_attendance_step name w) as (b & w' & Hcall & Hclk & Hstep).
  exists b, w'. split; trivial. split; trivial.
  destruct Hstep as [(_ & -> & _) | (_ & Hnew & time & ->)].
  - split; trivial. exists []. now rewrite app_nil_r.
  - split; [now eexists|]. apply at_most_once_step.
    intro Hrec. apply (recorded_any_name_date _ _ _ Hn Hd) in Hrec. congruence.
Qed.

(** A name that is not read back as a text is marked at every call: two
    calls on one date leave two records. *)
Lemma mark_attendance_twice (w : World) (name : string) :
  let today := today_of w in
  let file := attendance_file w in
  let row1 := mkRow name today (strftime_time (clock w (S (ticks w)))) in
  let w1 := mkWorld (file ++ [row1]) (clock w) (S (S (ticks w))) in
  let row2 := mkRow name today (strftime_time (clock w (S (S (S (ticks w)))))) in
  let w2 := mkWorld (file ++ [row1; row2]) (clock w) (S (S (S (S (ticks w))))) in
  ~ recorded name today file ->
  keeps_text (map Name file ++ [name]) name = false ->
  today_of w1 = today ->
  mark_attendance name w = Some (true, w1)
  /\ mark_attendance name w1 = Some (true, w2)
  /\ records_of name today (attendance_file w2) = [row1; row2].
Proof.
  intros today file row1 w1 row2 w2 Hnew Hunread Hsame.
  split; [|split].
  - rewrite mark_attendance_unfold. fold today file.
    now rewrite (not_recorded_any _ _ _ Hnew).
  - rewrite mark_attendance_unfold, Hsame.
    rewrite unread_name_not_found.
    + unfold w1, w2. simpl. rewrite <- app_assoc. reflexivity.
    + unfold w1. simpl. rewrite map_app. exact Hunread.
  - unfold w2. simpl. rewrite records_of_app, (records_of_none _ _ _ Hnew).
    unfold records_of. simpl. now rewrite !String.eqb_refl.
Qed.

(** C1: the second call for a name on one date does not answer "already
    marked" when [pd.read_csv] does not give the name back as a text (the
    name 123, which it reads as a number): the record that the first call
    wrote is not found, both calls answer "marked" and the file holds two
    records for the name and the date. *)
Theorem unread_name_marked_twice (w : World) (name : string) :
  let today := today_of w in
  let file := attendance_file w in
  let row1 := mkRow name today (strftime_time (clock w (S (ticks w)))) in
  let w1 := mkWorld (file ++ [row1]) (clock w) (S (S (ticks w))) in
  let row2 := mkRow name today (strftime_time (clock w (S (S (S (ticks w)))))) in
  let w2 := mkWorld (file ++ [row1; row2]) (clock w) (S (S (S (S (ticks w))))) in
  ~ recorded name today file ->
  keeps_text (map Name file ++ [name]) name = false ->
  today_of w1 = today ->
  mark_attendance name w = Some (true, w1)
  /\ mark_attendance name w1 = Some (true, w2)
  /\ records_of name today (attendance_file w2) = [row1; row2].
Proof. apply mark_attendance_twice. Qed.

(** C2: the calls of [mark_attendance] only add lines at the end of the
    file, but they do not keep it with at most one record per name and
    date: two calls on one date for a name that [pd.read_csv] does not
    give back as a text leave two records of the name and the date in a
    file that had none. *)
Theorem unread_name_breaks_invariant (w : World) (name d : string) :
  (forall n, strftime_date (clock w n) = d) ->
  at_most_once (attendance_file w) ->
  ~ recorded name d (attendance_file w) ->
  keeps_text (map Name (attendance_file w) ++ [name]) name = false ->
  exists w',
    mark_each [name; name] w = Some ([true; true], w')
    /\ (exists added, attendance_file w' = attendance_file w ++ added)
    /\ List.length (records_of name d (attendance_file w')) = 2
    /\ ~ at_most_once (attendance_file w').
Proof.
  intros Hclock _ Hnew Hunread.
  assert (Htoday : today_of w = d) by apply Hclock.
  subst d.
  destruct (mark_attendance_twice w name Hnew Hunread) as (H1 & H2 & Hrec).
  { unfold today_of at 1. simpl. apply Hclock. }
  eexists. split; [|split; [|split]].
  - simpl. unfold bind, ret. rewrite H1, H2. reflexivity.
  - simpl. eexists. reflexivity.
  - rewrite Hrec. reflexivity.
  - intro Hinv. specialize (Hinv name (today_of w)). rewrite Hrec in Hinv. simpl in Hinv. lia.
Qed.

(** X15: for a name and on a date that [pd.read_csv] gives back as texts:
    if the file holds a record for the name and today's date,
    [mark_attendance] answers "already marked" and leaves the file as it
    is; otherwise it appends the one record (name, date, time) and answers
    "marked", and a second call on the same date answers "already marked"
    and the file holds exactly that one record. *)
Theorem mark_attendance_once_text (w : World) (name : string) :
  stays_text name -> stays_text (today_of w) ->
  let today := today_of w in
  let file := attendance_file w in
  (recorded name today file ->
     mark_attendance name w = Some (false, mkWorld file (clock w) (S (ticks w))))
  /\ (~ recorded name today file ->
      let row := mkRow name today (strftime_time (clock w (S (ticks w)))) in
      let w1 := mkWorld (file ++ [row]) (clock w) (S (S (ticks w))) in
      mark_attendance name w = Some (true, w1)
      /\ (today_of w1 = today ->
          exists w2, mark_attendance name w1 = Some (false, w2)
            /\ attendance_file w2 = file ++ [row]
            /\ records_of name today (attendance_file w2) = [row])).
Proof.
  intros Hn Hd today file. subst today file. split.
  - intro H. rewrite mark_attendance_unfold.
    apply (recorded_any_name_date _ _ _ Hn Hd) in H. now rewrite H.
  - intros H row w1. split.
    + rewrite mark_attendance_unfold.
      now rewrite (not_recorded_any _ _ _ H).
    + intro Hsame. rewrite mark_attendance_unfold. rewrite Hsame.
      assert (Hrow : any_name_date (read_frame (attendance_file w1)) name (today_of w)
                     = true).
      { apply (recorded_any_name_date _ _ _ Hn Hd). exists row. simpl.
        split; [apply in_or_app; right; now left | now split]. }
      rewrite Hrow. eexists. split; [reflexivity|]. simpl. split; trivial.
      rewrite records_of_app, (records_of_none _ _ _ H). simpl.
      apply records_of_same.
Qed.

(** X16: whatever calls of [mark_attendance] are made, the file only
    grows at its end (no line is removed or changed); and when the names
    marked and the dates of the clock are texts that [pd.read_csv] gives
    back as texts, a file with at most one record per name and date stays
    so, and a pair that has its record keeps exactly that one however
    often it is marked again. *)
Theorem ledger_invariant_text (names : list string) (w : World) :
  exists results w',
    mark_each names w = Some (results, w')
    /\ (exists added, attendance_file w' = attendance_file w ++ added)
    /\ ((forall name, In name names -> stays_text name) ->
        (forall n, stays_text (strftime_date (clock w n))) ->
        at_most_once (attendance_file w) ->
        at_most_once (attendance_file w')
        /\ forall name date,
             List.length (records_of name date (attendance_file w)) = 1 ->
             List.length (records_of name date (attendance_file w')) = 1).
Proof.
  revert w. induction names as [|name rest IH]; intro w.
  - exists [], w. split; [reflexivity|]. split.
    + exists []. now rewrite app_nil_r.
    + intros _ _ H. now split.
  - destruct (mark_attendance_step name w) as (b & w1 & Hcall & Hclk & Hstep).
    destruct (IH w1) as (bs & w2 & Hrest & (added & Happ) & Hinv).
    exists (b :: bs), w2. split.
    { simpl. unfold bind. rewrite Hcall, Hrest. reflexivity. }
    assert (Hadd : exists added1, attendance_file w1 = attendance_file w ++ added1).
    { destruct Hstep as [(_ & -> & _) | (_ & _ & time & ->)].
      - exists []. now rewrite app_nil_r.
      - now eexists. }
    destruct Hadd as (added1 & Hadd). split.
    { exists (added1 ++ added). rewrite Happ, Hadd, app_assoc. reflexivity. }
    intros Hnames Hdates H0.
    destruct (mark_attendance_invariant name w) as (b' & w1' & Hcall' & _ & _ & Hkeep).
    { apply Hnames. now left. }
    { apply Hdates. }
    rewrite Hcall in Hcall'. injection Hcall' as <- <-.
    destruct Hinv as [H2 Hone].
    { intros n Hn. apply Hnames. now right. }
    { intro n. rewrite Hclk. apply Hdates. }
    { now apply Hkeep. }
    split; trivial. intros n d Hlen.
    assert (Hle : List.length (records_of n d (attendance_file w2)) <= 1) by apply H2.
    assert (Hge : 1 <= List.length (records_of n d (attendance_file w2))).
    { rewrite Happ, Hadd, !records_of_app, !length_app. lia. }
    lia.
Qed.

(** X3: A call of [mark_attendance] leaves the records of every other name,
    and of the name on every other date, as they are. *)
Theorem mark_attendance_frame (name : string) (w : World) (n d : string) :
  n <> name \/ d <> today_of w ->
  exists b w',
    mark_attendance name w = Some (b, w')
    /\ records_of n d (attendance_file w') = records_of n d (attendance_file w).
Proof.
  intro Hother.
  destruct (mark_attendance_step name w) as (b & w' & Hcall & _ & Hstep).
  exists b, w'. split; trivial.
  destruct Hstep as [(_ & -> & _) | (_ & _ & time & ->)]; trivial.
  rewrite records_of_app, records_of_other; [apply app_nil_r|].
  apply andb_false_iff.
  destruct Hother as [Hn | Hd]; [left | right]; apply String.eqb_neq; congruence.
Qed.

(** ** The matcher *)

Lemma True_in_false (matches : list bool) :
  (forall b, In b matches -> b = false) -> True_in matches = false.
Proof.
  induction matches as [|b rest IH]; simpl; trivial.
  intro H. rewrite (H b (or_introl eq_refl)). simpl.
  apply IH. intros b' Hb'. apply H. now right.
Qed.

(** [matches.index(True)] is the place of the first [True]. *)
Lemma index_True_first (matches : list bool) :
  True_in matches = true ->
  exists i, index_True matches = Some i
    /\ nth_error matches i = Some true
    /\ forall j, j < i -> nth_error matches j = Some false.
Proof.
  induction matches as [|b rest IH]; simpl; [discriminate|].
  destruct b; simpl.
  - intros _. exists 0. repeat split. intros j Hj. lia.
  - intro H. destruct (IH H) as (i & Hi & Hnth & Hbefore).
    exists (S i). rewrite Hi. repeat split; trivial.
    intros [|j] Hj; simpl; trivial. apply Hbefore. lia.
Qed.

Lemma compare_faces_length (known : list encoding) (probe : encoding) (tol : Q) :
  List.length (compare_faces known probe tol) = List.length known.
Proof. unfold compare_faces, face_distance. now rewrite !length_map. Qed.

Lemma compare_faces_nth (known : list encoding) (probe : encoding) (tol : Q) (i : nat) :
  nth_error (compare_faces known probe tol) i
  = option_map (fun e => Qle_bool (distance e probe) tol) (nth_error known i).
Proof.
  unfold compare_faces, face_distance. rewrite map_map.
  revert i. induction known as [|e rest IH]; intros [|i]; simpl; trivial.
Qed.

Lemma compare_faces_True_in (known : list encoding) (probe : encoding) (tol : Q) :
  True_in (compare_faces known probe tol) = true
  <-> exists e, In e known /\ (distance e probe <= tol)%Q.
Proof.
  unfold True_in, compare_faces, face_distance. rewrite map_map, existsb_exists.
  split.
  - intros (b & Hin & Hb). apply in_map_iff in Hin.
    destruct Hin as (e & He & Hin). exists e. split; trivial.
    apply Qle_bool_iff. congruence.
  - intros (e & Hin & Hle). exists true. split; trivial.
    apply in_map_iff. exists e. split; trivial. now apply Qle_bool_iff.
Qed.

(** On lists of one length, a [True] among the flags gives a name. *)
Lemma label_found (known : list encoding) (names : list string)
                  (probe : encoding) (tol : Q) :
  List.length known = List.length names ->
  True_in (compare_faces known probe tol) = true ->
  exists i e name,
    index_True (compare_faces known probe tol) = Some i
    /\ nth_error known i = Some e /\ nth_error names i = Some name
    /\ (distance e probe <= tol)%Q
    /\ (forall j e', j < i -> nth_error known j = Some e' ->
                     (tol < distance e' probe)%Q)
    /\ label names (compare_faces known probe tol) = Some name.
Proof.
  intros Hlen Hin.
  destruct (index_True_first _ Hin) as (i & Hi & Hnth & Hbefore).
  rewrite compare_faces_nth in Hnth.
  destruct (nth_error known i) as [e|] eqn:He; [|discriminate].
  assert (Hlt : i < List.length names).
  { rewrite <- Hlen. apply nth_error_Some. congruence. }
  destruct (nth_error names i) as [name|] eqn:Hname;
    [|apply nth_error_None in Hname; lia].
  exists i, e, name. repeat split; trivial.
  - apply Qle_bool_iff. simpl in Hnth. congruence.
  - intros j e' Hj He'. specialize (Hbefore j Hj).
    rewrite compare_faces_nth, He' in Hbefore. simpl in Hbefore.
    apply Qnot_le_lt. intro Hle. apply Qle_bool_iff in Hle. congruence.
  - unfold label. now rewrite Hin, Hi.
Qed.

(** C3: a probe farther than the tolerance 0.6 from every reference
    vector is named "Unknown", and gets the line of an unknown person
    without any attendance mark; with no reference vector at all every
    probe is "Unknown". *)
Theorem far_probe_unknown (encs : list encoding) (names : list string)
                          (probe : encoding) :
  (forall e, In e encs -> (6 # 10 < distance e probe)%Q) ->
  match_face encs names probe = Some "Unknown"
  /\ (forall results w,
         recognize_loop encs names [probe] results w
         = Some (results ++ ["✗ Unknown Person"], w))
  /\ match_face [] names probe = Some "Unknown".
Proof.
  intro Hfar.
  assert (H : True_in (compare_faces encs probe tolerance) = false).
  { destruct (True_in (compare_faces encs probe tolerance)) eqn:E; trivial.
    apply compare_faces_True_in in E. destruct E as (e & Hin & Hle).
    specialize (Hfar e Hin). apply Qlt_not_le in Hfar. contradiction. }
  repeat split.
  - unfold match_face, label. now rewrite H.
  - intros results w. simpl. now rewrite H.
Qed.

(** C4: when some reference vector is within 0.6 of the probe, the name
    given is the one stored at the place of the first such vector in the
    order of the registry: every vector before it is farther than 0.6,
    and no distance is compared with another.  This is the name both
    loops of [recognize_faces] use for the face: the first loop marks the
    attendance of this name and adds the line that carries it, then goes
    on with the other faces; the second loop writes it under the box. *)
Theorem first_match_wins (encs : list encoding) (names : list string)
                         (probe : encoding) :
  List.length encs = List.length names ->
  (exists e, In e encs /\ (distance e probe <= 6 # 10)%Q) ->
  exists i e name,
    nth_error encs i = Some e /\ nth_error names i = Some name
    /\ (distance e probe <= 6 # 10)%Q
    /\ (forall j e', j < i -> nth_error encs j = Some e' ->
                     (6 # 10 < distance e' probe)%Q)
    /\ match_face encs names probe = Some name
    /\ (forall rest results w,
          exists marked w',
            mark_attendance name w = Some (marked, w')
            /\ recognize_loop encs names (probe :: rest) results w
               = recognize_loop encs names rest
                   (results ++ [if marked : bool then marked_line name
                                else already_marked_line name]) w')
    /\ (forall rest,
          box_names encs names (probe :: rest)
          = option_map (cons name) (box_names encs names rest)).
Proof.
  intros Hlen Hex. apply compare_faces_True_in in Hex.
  destruct (label_found encs names probe (6 # 10) Hlen Hex)
    as (i & e & name & Hi & He & Hn & Hle & Hbefore & Hlabel).
  exists i, e, name. repeat split; trivial.
  - intros rest results w.
    destruct (mark_attendance_step name w) as (b & w' & Hcall & _).
    exists b, w'. split; trivial.
    cbn [recognize_loop]. unfold tolerance. rewrite Hex.
    unfold bind, raise_or. rewrite Hi, Hn, Hcall. reflexivity.
  - intro rest. cbn [box_names]. unfold match_face, tolerance. rewrite Hlabel.
    now destruct (box_names encs names rest).
Qed.

(** C5: the name given to a probe is "Unknown" or one of the names of
    the registry. *)
Theorem match_face_in_registry (encs : list encoding) (names : list string)
                               (probe : encoding) :
  List.length encs = List.length names ->
  exists r, match_face encs names probe = Some r
            /\ (r = "Unknown" \/ In r names).
Proof.
  intro Hlen. unfold match_face.
  destruct (True_in (compare_faces encs probe tolerance)) eqn:E.
  - destruct (label_found encs names probe tolerance Hlen E)
      as (i & e & name & _ & _ & Hn & _ & _ & Hlabel).
    exists name. split; trivial. right. eapply nth_error_In; eassumption.
  - exists "Unknown". split; [|now left]. unfold label. now rewrite E.
Qed.

(** ** The registry *)

Lemma load_loop_lengths (files : Directory) (encs : list encoding)
                        (names : list string) (shown : list message) :
  List.length encs = List.length names ->
  List.length (fst (fst (load_loop files encs names shown)))
  = List.length (snd (fst (load_loop files encs names shown))).
Proof.
  revert encs names shown.
  induction files as [|[filename img] rest IH]; intros encs names shown Hlen;
    simpl; trivial.
  destruct (is_picture_name filename); [|now apply IH].
  destruct (face_encodings img None) as [|first_encoding others].
  - now apply IH.
  - apply IH. rewrite !length_app. simpl. lia.
Qed.

(** C10: the two lists [load_known_faces] returns have one length, so
    whenever [True] is among the flags that [compare_faces] gives for the
    loaded encodings, [matches.index(True)] is a place of the list of
    names and the lookup [known_names[matches.index(True)]] yields a
    name. *)
Theorem registry_shape (dir : Directory) (probe : encoding) (tol : Q) :
  let encs := fst (fst (load_known_faces dir)) in
  let names := snd (fst (load_known_faces dir)) in
  List.length encs = List.length names
  /\ (True_in (compare_faces encs probe tol) = true ->
      exists i name,
        index_True (compare_faces encs probe tol) = Some i
        /\ i < List.length names
        /\ nth_error names i = Some name
        /\ label names (compare_faces encs probe tol) = Some name).
Proof.
  intros encs names.
  assert (Hlen : List.length encs = List.length names)
    by (apply load_loop_lengths; reflexivity).
  split; trivial. intro Hin.
  destruct (label_found encs names probe tol Hlen Hin)
    as (i & e & name & Hi & _ & Hn & _ & _ & Hlabel).
  exists i, name. repeat split; trivial.
  apply nth_error_Some. congruence.
Qed.

(** ** Registration *)

(** The messages shown before the loop stay before those of the loop. *)
Lemma register_loop_shown (name : string) (files : list UploadedFile)
                          (dir : Directory) (shown : list message) :
  register_loop name files dir shown
  = (fst (fst (register_loop name files dir [])),
     shown ++ snd (fst (register_loop name files dir [])),
     snd (register_loop name files dir [])).
Proof.
  revert dir shown. induction files as [|file rest IH]; intros dir shown; simpl.
  - now rewrite app_nil_r.
  - destruct (load_temp_file file) as [img|]; [|now rewrite app_nil_r].
    destruct (List.length (face_encodings img None) =? 0).
    + rewrite IH. rewrite (IH dir [_]). simpl. now rewrite <- app_assoc.
    + destruct (imwrite (save_path name file) img dir) as [dir'|].
      * apply IH.
      * now rewrite app_nil_r.
Qed.

Lemma register_loop_dir (name : string) (files : list UploadedFile)
                        (dir : Directory) (shown : list message) :
  fst (fst (register_loop name files dir shown))
  = fst (fst (register_loop name files dir [])).
Proof. now rewrite register_loop_shown. Qed.

Lemma register_loop_ending (name : string) (files : list UploadedFile)
                           (dir : Directory) (shown : list message) :
  snd (register_loop name files dir shown) = snd (register_loop name files dir []).
Proof. now rewrite register_loop_shown. Qed.

(** The files after a part of the batch are handled when that part ends
    without an exception, and not at all otherwise. *)
Lemma register_loop_app (name : string) (files1 files2 : list UploadedFile)
                        (dir : Directory) (shown : list message) :
  register_loop name (files1 ++ files2) dir shown
  = match register_loop name files1 dir shown with
    | (dir1, shown1, completed) => register_loop name files2 dir1 shown1
    | (dir1, shown1, raised) => (dir1, shown1, raised)
    end.
Proof.
  revert dir shown. induction files1 as [|file rest IH]; intros dir shown; simpl; trivial.
  destruct (load_temp_file file) as [img|]; trivial.
  destruct (List.length (face_encodings img None) =? 0); [apply IH|].
  destruct (imwrite (save_path name file) img dir) as [dir'|]; [apply IH | trivial].
Qed.

Lemma register_loop_app_completed (name : string) (files1 files2 : list UploadedFile)
                                  (dir : Directory) (shown : list message) :
  snd (register_loop name (files1 ++ files2) dir shown) = completed ->
  snd (register_loop name files1 dir shown) = completed.
Proof.
  rewrite register_loop_app.
  now destruct (register_loop name files1 dir shown) as [[dir1 shown1] [|]].
Qed.

Lemma register_unfold (clicked : bool) (name : string)
                      (files : list UploadedFile) (app : App) :
  register clicked name files app =
  if clicked && negb (String.eqb name "") && negb (Nat.eqb (List.length files) 0)
  then
    let r := register_loop name files (known_faces_dir app) [] in
    let dir := fst (fst r) in
    match snd r with
    | completed =>
        (mkApp dir (fst (fst (load_known_faces dir))) (snd (fst (load_known_faces dir))),
         (snd (fst r) ++ [st_success (String.append name " registered successfully!")])
           ++ snd (load_known_faces dir))
    | raised =>
        (mkApp dir (known_encodings app) (known_names app), snd (fst r) ++ [st_exception])
    end
  else (app, []).
Proof.
  unfold register.
  destruct (clicked && negb (String.eqb name "")
            && negb (Nat.eqb (List.length files) 0)); trivial.
  destruct (register_loop name files (known_faces_dir app) []) as [[dir shown] [|]];
    simpl; trivial.
  destruct (load_known_faces dir) as [[encs names] warnings]. reflexivity.
Qed.

(** A picture that was loaded and has no face adds its message and
    nothing else. *)
Lemma register_loop_no_face (name : string) (file : UploadedFile) (img : image)
                            (rest : list UploadedFile) (dir : Directory)
                            (shown : list message) :
  load_temp_file file = Some img ->
  face_encodings img None = [] ->
  register_loop name (file :: rest) dir shown
  = register_loop name rest dir (shown ++ [no_face_detected file]).
Proof. intros Hload Hnone. simpl. rewrite Hload, Hnone. reflexivity. Qed.

(** C6: an uploaded picture without a face is not always skipped with its
    message.  When its bytes fit in the buffer of the temporary file (a
    small picture), the file on the disk is still empty when
    [load_image_file] reads it: the call raises, whatever the picture
    shows.  The loop stops there: no "No face detected" message for the
    picture, the files after it are not handled, and the page ends with
    the exception, the registry being what it was. *)
Theorem small_upload_stops_register (name : string) (before after : list UploadedFile)
                                    (file : UploadedFile) (dir : Directory)
                                    (shown : list message) (app : App) :
  (file_size file <= buffer_size)%N ->
  register_loop name (before ++ file :: after) dir shown
  = (fst (fst (register_loop name before dir shown)),
     snd (fst (register_loop name before dir shown)), raised)
  /\ (name <> "" ->
      register true name (file :: after) app
      = (mkApp (known_faces_dir app) (known_encodings app) (known_names app),
         [st_exception])).
Proof.
  intro Hsmall.
  assert (Hload : load_temp_file file = None).
  { unfold load_temp_file. apply N.leb_le in Hsmall. now rewrite Hsmall. }
  split.
  - rewrite register_loop_app.
    destruct (register_loop name before dir shown) as [[dir1 shown1] [|]]; simpl; trivial.
    now rewrite Hload.
  - intro Hname. rewrite register_unfold.
    apply String.eqb_neq in Hname. rewrite Hname. simpl. now rewrite Hload.
Qed.

(** X17: in a batch of uploaded pictures, one that was loaded (its bytes
    are a picture and more than the buffer of the temporary file holds)
    and in which no face is found gets its error message and writes
    nothing: the directory of known faces, and the way the loop ends, are
    those of the batch without that picture, and the pictures after it
    are handled as without it. *)
Theorem faceless_picture_skipped (name : string) (before after : list UploadedFile)
                                 (file : UploadedFile) (img : image) (dir : Directory)
                                 (clicked : bool) (app : App) :
  load_temp_file file = Some img ->
  face_encodings img None = [] ->
  register_loop name [file] dir [] = (dir, [no_face_detected file], completed)
  /\ (forall d s, register_loop name (file :: after) d s
                  = register_loop name after d (s ++ [no_face_detected file]))
  /\ fst (fst (register_loop name (before ++ file :: after) dir []))
     = fst (fst (register_loop name (before ++ after) dir []))
  /\ snd (register_loop name (before ++ file :: after) dir [])
     = snd (register_loop name (before ++ after) dir [])
  /\ known_faces_dir (fst (register clicked name (before ++ file :: after) app))
     = known_faces_dir (fst (register clicked name (before ++ after) app)).
Proof.
  intros Hload Hnone.
  assert (Hone : forall rest d s,
             register_loop name (file :: rest) d s
             = register_loop name rest d (s ++ [no_face_detected file]))
    by (intros rest d s; now apply register_loop_no_face with (img := img)).
  assert (Hsame : forall d,
             fst (fst (register_loop name (before ++ file :: after) d []))
             = fst (fst (register_loop name (before ++ after) d []))
             /\ snd (register_loop name (before ++ file :: after) d [])
                = snd (register_loop name (before ++ after) d [])).
  { intro d. rewrite !register_loop_app.
    destruct (register_loop name before d []) as [[dir1 shown1] [|]]; [|now split].
    rewrite Hone, register_loop_dir, register_loop_ending.
    rewrite (register_loop_dir name after dir1 shown1).
    rewrite (register_loop_ending name after dir1 shown1). now split. }
  split; [|split; [|split; [|split]]].
  - rewrite Hone. reflexivity.
  - apply Hone.
  - apply Hsame.
  - apply Hsame.
  - rewrite !register_unfold.
    destruct (clicked && negb (String.eqb name "")) eqn:Hguard; simpl; trivial.
    replace (List.length (before ++ file :: after) =? 0) with false
      by (rewrite length_app; simpl; symmetry; apply Nat.eqb_neq; lia).
    simpl.
    destruct (Hsame (known_faces_dir app)) as [Hdir Hend]. rewrite Hend.
    destruct (List.length (before ++ after) =? 0) eqn:Hempty; simpl.
    + apply Nat.eqb_eq in Hempty. apply length_zero_iff_nil in Hempty.
      rewrite Hdir, Hempty. reflexivity.
    + destruct (snd (register_loop name (before ++ after) (known_faces_dir app) []));
        simpl; exact Hdir.
Qed.

(** ** File names and person names *)

Lemma chars_of_chars (l : list ascii) : Str.chars (Str.of_chars l) = l.
Proof. apply list_ascii_of_string_of_list_ascii. Qed.

Lemma of_chars_chars (s : string) : Str.of_chars (Str.chars s) = s.
Proof. apply string_of_list_ascii_of_string. Qed.

Lemma chars_append (a b : string) :
  Str.chars (String.append a b) = Str.chars a ++ Str.chars b.
Proof.
  induction a as [|c a IH]; simpl; trivial.
  unfold Str.chars in *. simpl. now rewrite IH.
Qed.

(** What is after the last separator has no separator. *)
Lemma rsplit_after (sep : ascii) (s before after : list ascii) :
  Str.rsplit sep s = Some (before, after) -> Str.rsplit sep after = None.
Proof.
  revert before after. induction s as [|c rest IH]; intros before after; simpl.
  - discriminate.
  - destruct (Str.rsplit sep rest) as [[a b]|] eqn:E.
    + intro H. injection H as _ <-. eapply IH. reflexivity.
    + destruct (Ascii.eqb c sep); [|discriminate].
      intro H. injection H as _ <-. trivial.
Qed.

Lemma rsplit_app (sep : ascii) (before after : list ascii) :
  Str.rsplit sep after = None ->
  Str.rsplit sep (before ++ sep :: after) = Some (before, after).
Proof.
  intro H. induction before as [|c rest IH]; simpl.
  - now rewrite H, Ascii.eqb_refl.
  - now rewrite IH.
Qed.

Lemma rsplit_absent (sep : ascii) (s : list ascii) :
  ~ In sep s -> Str.rsplit sep s = None.
Proof.
  induction s as [|c rest IH]; simpl; trivial.
  intro H. rewrite IH by tauto.
  destruct (Ascii.eqb c sep) eqn:E; trivial.
  apply Ascii.eqb_eq in E. tauto.
Qed.

Lemma last_dot_field_no_dot (s : string) :
  Str.rsplit "."%char (Str.chars (Str.last_dot_field s)) = None.
Proof.
  unfold Str.last_dot_field.
  destruct (Str.rsplit "."%char (Str.chars s)) as [[before after]|] eqn:E; trivial.
  rewrite chars_of_chars. eapply rsplit_after. eassumption.
Qed.

Lemma save_path_chars (name : string) (file : UploadedFile) :
  Str.chars (save_path name file)
  = map (fun c => if Ascii.eqb c " " then "_"%char else c) (Str.chars name)
    ++ "."%char :: Str.chars (Str.last_dot_field (file_name file)).
Proof.
  unfold save_path, Str.replace. rewrite !chars_append, chars_of_chars. reflexivity.
Qed.

(** X1: The name a registered picture is loaded under is the name typed, with
    underscores read as spaces and in title case, when the file name
    that is saved has no directory separator (it names a file of
    [known_faces]) and the name has a character other than a dot. *)
Theorem registered_name_round_trip (name : string) (file : UploadedFile) :
  ~ In "/"%char (Str.chars (save_path name file)) ->
  (exists c, In c (Str.chars name) /\ c <> "."%char) ->
  name_of_file (save_path name file) = title (Str.replace "_" " " name).
Proof.
  intros Hsep (c & Hin & Hc).
  unfold name_of_file, Str.splitext_root.
  rewrite save_path_chars in *.
  rewrite (rsplit_app _ _ _ (last_dot_field_no_dot _)).
  rewrite (rsplit_absent "/"%char (Str.chars (Str.last_dot_field (file_name file))))
    by (intro H; apply Hsep, in_or_app; right; now right).
  rewrite (rsplit_absent "/"%char
             (map (fun c0 => if Ascii.eqb c0 " " then "_"%char else c0) (Str.chars name)))
    by (intro H; apply Hsep, in_or_app; now left).
  assert (Hdots : forallb (fun c0 => Ascii.eqb c0 ".")
                    (map (fun c0 => if Ascii.eqb c0 " " then "_"%char else c0)
                         (Str.chars name)) = false).
  { destruct (forallb _ _) eqn:E; trivial.
    rewrite forallb_forall in E.
    specialize (E _ (in_map _ _ _ Hin)). cbv beta in E.
    destruct (Ascii.eqb c " ") eqn:Es.
    - vm_compute in E. discriminate.
    - apply Ascii.eqb_eq in E. contradiction. }
  rewrite Hdots. f_equal. unfold Str.replace. rewrite chars_of_chars, map_map.
  f_equal. apply map_ext. intro a.
  destruct (Ascii.eqb a " ") eqn:Ea; trivial.
  apply Ascii.eqb_eq in Ea. now subst a.
Qed.

(** X2: A picture uploaded under the extension png, jpg or jpeg, in any case
    of letters, is saved under a name that [load_known_faces] reads. *)
Theorem saved_picture_is_read (name : string) (file : UploadedFile) :
  In (Str.lower (Str.last_dot_field (file_name file))) ["png"; "jpg"; "jpeg"] ->
  is_picture_name (save_path name file) = true.
Proof.
  intro Hext. unfold is_picture_name, Str.endswith, Str.lower.
  rewrite chars_of_chars, save_path_chars, map_app. simpl map.
  assert (Hl : map Str.lower_char (Str.chars (Str.last_dot_field (file_name file)))
               = Str.chars (Str.lower (Str.last_dot_field (file_name file)))).
  { unfold Str.lower. now rewrite chars_of_chars. }
  rewrite Hl, rev_app_distr.
  generalize (rev (map Str.lower_char
                     (map (fun c => if Ascii.eqb c " " then "_"%char else c)
                          (Str.chars name)))).
  intro stem.
  destruct Hext as [<-|[<-|[<-|[]]]]; reflexivity.
Qed.

(** ** The directory of known faces *)

Lemma write_file_names (filename : string) (img : image) (dir : Directory) :
  map fst (write_file filename img dir)
  = if existsb (fun p => String.eqb p filename) (map fst dir) then map fst dir
    else map fst dir ++ [filename].
Proof.
  induction dir as [|[p old] rest IH]; simpl; trivial.
  destruct (String.eqb p filename) eqn:E; simpl.
  - apply String.eqb_eq in E. now subst p.
  - rewrite IH. now destruct (existsb _ (map fst rest)).
Qed.

Lemma existsb_eqb_In (path : string) (names : list string) :
  existsb (fun p => String.eqb p path) names = true <-> In path names.
Proof.
  rewrite existsb_exists. split.
  - intros (p & Hin & E). apply String.eqb_eq in E. now subst p.
  - intro Hin. exists path. split; trivial. apply String.eqb_refl.
Qed.

Lemma write_file_length (filename : string) (img : image) (dir : Directory) :
  List.length (write_file filename img dir)
  = if existsb (fun p => String.eqb p filename) (map fst dir)
    then List.length dir else S (List.length dir).
Proof.
  rewrite <- (length_map fst (write_file filename img dir)), write_file_names.
  destruct (existsb _ (map fst dir)).
  - apply length_map.
  - rewrite length_app, length_map. simpl. lia.
Qed.

Lemma write_file_In (filename : string) (img : image) (dir : Directory) :
  In filename (map fst (write_file filename img dir)).
Proof.
  rewrite write_file_names.
  destruct (existsb _ (map fst dir)) eqn:E.
  - now apply existsb_eqb_In.
  - apply in_or_app. right. now left.
Qed.

Lemma read_file_write_file (filename other : string) (img : image) (dir : Directory) :
  read_file other (write_file filename img dir)
  = if String.eqb other filename then Some img else read_file other dir.
Proof.
  induction dir as [|[p old] rest IH]; simpl.
  - rewrite (String.eqb_sym filename other). reflexivity.
  - destruct (String.eqb p filename) eqn:E; simpl.
    + apply String.eqb_eq in E. subst p.
      rewrite (String.eqb_sym filename other). now destruct (String.eqb other filename).
    + rewrite IH. destruct (String.eqb p other) eqn:E2; trivial.
      apply String.eqb_eq in E2. subst p. now rewrite E.
Qed.

Lemma read_file_In (path : string) (img : image) (dir : Directory) :
  read_file path dir = Some img -> In (path, img) dir.
Proof.
  induction dir as [|[p old] rest IH]; simpl; [discriminate|].
  destruct (String.eqb p path) eqn:E.
  - apply String.eqb_eq in E. subst p. intro H. injection H as ->. now left.
  - intro H. right. now apply IH.
Qed.

(** ** More on registration *)

Lemma has_face_length (img : image) :
  has_face img = negb (List.length (face_encodings img None) =? 0).
Proof. reflexivity. Qed.

(** X4: When every uploaded file can be loaded (its bytes are a picture and
    more than the buffer of the temporary file holds) and OpenCV has an
    encoder for every extension, the loop of "Register" runs to its end:
    it has written the pictures in which a face is found, in the order of
    the upload, each under the path made of the name and its extension,
    and shown one error for each picture without a face, in the order of
    the upload. *)
Theorem register_loop_writes_and_errors (name : string) (files : list UploadedFile)
                                        (dir : Directory) :
  (forall f, In f files -> load_temp_file f <> None) ->
  (forall f, In f files -> write_target (save_path name f) <> no_encoder) ->
  register_loop name files dir []
  = (fold_left (save_upload name) (filter upload_has_face files) dir,
     map no_face_detected (filter (fun f => negb (upload_has_face f)) files),
     completed).
Proof.
  revert dir. induction files as [|file rest IH]; intros dir Hload Hwrite;
    [reflexivity|].
  assert (Hl : forall f, In f rest -> load_temp_file f <> None)
    by (intros f Hf; apply Hload; now right).
  assert (Hw : forall f, In f rest -> write_target (save_path name f) <> no_encoder)
    by (intros f Hf; apply Hwrite; now right).
  specialize (Hload file (or_introl eq_refl)).
  specialize (Hwrite file (or_introl eq_refl)).
  destruct (load_temp_file file) as [img|] eqn:E; [|contradiction].
  assert (Hf : upload_has_face file = negb (List.length (face_encodings img None) =? 0))
    by (unfold upload_has_face, has_face; now rewrite E).
  assert (Hs : save_upload name dir file
               = match imwrite (save_path name file) img dir with
                 | Some dir' => dir'
                 | None => dir
                 end)
    by (unfold save_upload; now rewrite E).
  cbn [filter register_loop]. rewrite E, Hf.
  destruct (List.length (face_encodings img None) =? 0); cbn [negb fold_left map].
  - rewrite register_loop_shown, (IH dir Hl Hw). reflexivity.
  - rewrite Hs. unfold imwrite.
    destruct (write_target (save_path name file)); [| |contradiction]; now apply IH.
Qed.

(** The file of a name stays as it is while no picture with a face is
    written under the name. *)
Lemma register_loop_other_paths (name filename : string) (files : list UploadedFile) :
  (forall g img, In g files -> load_temp_file g = Some img -> has_face img = true ->
                 write_target (save_path name g) <> written_as filename) ->
  forall dir shown,
    read_file filename (fst (fst (register_loop name files dir shown)))
    = read_file filename dir.
Proof.
  induction files as [|file rest IH]; intros Hother dir shown; simpl; trivial.
  assert (Hrest : forall g img, In g rest -> load_temp_file g = Some img ->
                                has_face img = true ->
                                write_target (save_path name g) <> written_as filename)
    by (intros g img Hg; apply Hother; now right).
  destruct (load_temp_file file) as [img|] eqn:Hload; trivial.
  destruct (List.length (face_encodings img None) =? 0) eqn:E.
  - now apply IH.
  - assert (Hne : write_target (save_path name file) <> written_as filename).
    { apply (Hother file img); [now left | trivial|]. rewrite has_face_length, E. reflexivity. }
    unfold imwrite. destruct (write_target (save_path name file)) as [q| |]; trivial.
    + rewrite (IH Hrest), read_file_write_file.
      destruct (String.eqb filename q) eqn:Eq; trivial.
      apply String.eqb_eq in Eq. subst q. now elim Hne.
    + now apply IH.
Qed.

(** X5: Pictures uploaded in one batch under one extension go to one file: the
    directory has at most one file more after the batch, however many
    pictures had a face. *)
Theorem same_extension_one_file (name ext : string) (files : list UploadedFile)
                                (dir : Directory) :
  (forall f, In f files -> Str.last_dot_field (file_name f) = ext) ->
  List.length (fst (fst (register_loop name files dir []))) <= S (List.length dir).
Proof.
  intro Hext.
  pose (path := String.append (Str.replace " " "_" name) (String.append "." ext)).
  assert (Hpath : forall f, In f files -> save_path name f = path).
  { intros f Hf. unfold save_path. now rewrite (Hext f Hf). }
  clear Hext.
  assert (H : forall d,
             (forall q, write_target path = written_as q -> In q (map fst d) ->
                List.length (fst (fst (register_loop name files d []))) = List.length d)
             /\ List.length (fst (fst (register_loop name files d []))) <= S (List.length d)).
  { induction files as [|file rest IH]; intro d; simpl.
    - split; [trivial | lia].
    - assert (Hrest : forall f, In f rest -> save_path name f = path)
        by (intros f Hf; apply Hpath; now right).
      destruct (load_temp_file file) as [img|]; [|simpl; split; [trivial | lia]].
      destruct (List.length (face_encodings img None) =? 0).
      + rewrite register_loop_dir. now apply IH.
      + rewrite (Hpath file (or_introl eq_refl)). unfold imwrite.
        destruct (write_target path) as [q| |] eqn:T.
        * destruct (IH Hrest (write_file q (stored path img) d)) as [Hin _].
          rewrite (Hin q eq_refl (write_file_In _ _ _)), write_file_length.
          split.
          -- intros q' Hq' Hd. injection Hq' as <-.
             apply existsb_eqb_In in Hd. now rewrite Hd.
          -- destruct (existsb _ (map fst d)); lia.
        * destruct (IH Hrest d) as [_ Hle]. split; [discriminate | exact Hle].
        * simpl. split; [discriminate | lia]. }
  apply H.
Qed.

(** X18: [cv2.imwrite] is not asked whether it wrote.  When it writes none
    of the pictures of a batch to a file of [known_faces] (a name with a
    directory separator, as in a/b, names a directory that does not
    exist), the loop runs to its end, the directory is as it was, and the
    page still shows the success message. *)
Theorem unwritten_pictures_report_success (name : string) (files : list UploadedFile)
                                          (app : App) :
  name <> "" -> files <> [] ->
  (forall f, In f files -> load_temp_file f <> None) ->
  (forall f, In f files -> write_target (save_path name f) = not_written) ->
  known_faces_dir (fst (register true name files app)) = known_faces_dir app
  /\ In (st_success (String.append name " registered successfully!"))
        (snd (register true name files app)).
Proof.
  intros Hname Hfiles Hload Hwrite.
  assert (H : forall dir,
             fst (fst (register_loop name files dir [])) = dir
             /\ snd (register_loop name files dir []) = completed).
  { clear Hfiles. induction files as [|file rest IH]; intro dir; simpl; [now split|].
    assert (Hl : forall f, In f rest -> load_temp_file f <> None)
      by (intros f Hf; apply Hload; now right).
    assert (Hw : forall f, In f rest -> write_target (save_path name f) = not_written)
      by (intros f Hf; apply Hwrite; now right).
    specialize (Hload file (or_introl eq_refl)).
    specialize (Hwrite file (or_introl eq_refl)).
    destruct (load_temp_file file) as [img|]; [|contradiction].
    destruct (List.length (face_encodings img None) =? 0).
    - rewrite register_loop_dir, register_loop_ending. now apply IH.
    - unfold imwrite. rewrite Hwrite. now apply IH. }
  rewrite register_unfold.
  apply String.eqb_neq in Hname. rewrite Hname.
  destruct files as [|f rest]; [contradiction|].
  cbn [andb negb List.length Nat.eqb]. cbv zeta.
  destruct (H (known_faces_dir app)) as [-> ->]. simpl. split; trivial.
  apply in_or_app. left. apply in_or_app. right. now left.
Qed.

(** ** More on the registry *)

Lemma load_loop_entries (files : Directory) :
  forall encs names shown,
  exists es ns ws,
    load_loop files encs names shown = (encs ++ es, names ++ ns, shown ++ ws)
    /\ (forall e n, In (e, n) (combine es ns) <->
          exists f img rest,
            In (f, img) files /\ is_picture_name f = true
            /\ face_encodings img None = e :: rest /\ n = name_of_file f)
    /\ (forall m, In m ws <->
          exists f img,
            In (f, img) files /\ is_picture_name f = true
            /\ face_encodings img None = [] /\ m = no_face_found f).
Proof.
  induction files as [|[filename img] rest IH]; intros encs names shown; simpl.
  - exists [], [], []. rewrite !app_nil_r. split; trivial.
    split; intros; simpl; split; try contradiction.
    + intros (f & i & r & [] & _).
    + intros (f & i & [] & _).
  - destruct (is_picture_name filename) eqn:Hpic.
    + destruct (face_encodings img None) as [|e0 others] eqn:Hface.
      * destruct (IH encs names (shown ++ [no_face_found filename]))
          as (es & ns & ws & Heq & Hent & Hwarn).
        exists es, ns, (no_face_found filename :: ws).
        unfold no_face_found in *. simpl String.append in *.
        rewrite Heq, <- app_assoc. split; trivial. split.
        -- intros e n. rewrite Hent. split.
           ++ intros (f & i & r & Hin & H). exists f, i, r. split; [now right | exact H].
           ++ intros (f & i & r & [Hin|Hin] & Hp & Hf & Hn).
              ** injection Hin as <- <-. congruence.
              ** exists f, i, r. auto.
        -- intro m. simpl. rewrite Hwarn. split.
           ++ intros [<- | (f & i & Hin & H)].
              ** exists filename, img. auto.
              ** exists f, i. split; [now right | exact H].
           ++ intros (f & i & [Hin|Hin] & Hp & Hf & Hm).
              ** injection Hin as <- <-. now left.
              ** right. exists f, i. auto.
      * destruct (IH (encs ++ [e0]) (names ++ [name_of_file filename]) shown)
          as (es & ns & ws & Heq & Hent & Hwarn).
        exists (e0 :: es), (name_of_file filename :: ns), ws.
        rewrite Heq, <- !app_assoc. split; trivial. split.
        -- intros e n. simpl. rewrite Hent. split.
           ++ intros [H | (f & i & r & Hin & H)].
              ** injection H as <- <-. exists filename, img, others. auto.
              ** exists f, i, r. split; [now right | exact H].
           ++ intros (f & i & r & [Hin|Hin] & Hp & Hf & Hn).
              ** injection Hin as <- <-. left. congruence.
              ** right. exists f, i, r. auto.
        -- intro m. rewrite Hwarn. split.
           ++ intros (f & i & Hin & H). exists f, i. split; [now right | exact H].
           ++ intros (f & i & [Hin|Hin] & Hp & Hf & Hm).
              ** injection Hin as <- <-. congruence.
              ** exists f, i. auto.
    + destruct (IH encs names shown) as (es & ns & ws & Heq & Hent & Hwarn).
      exists es, ns, ws. split; trivial. split.
      * intros e n. rewrite Hent. split.
        -- intros (f & i & r & Hin & H). exists f, i, r. split; [now right | exact H].
        -- intros (f & i & r & [Hin|Hin] & Hp & Hf & Hn).
           ++ injection Hin as <- <-. congruence.
           ++ exists f, i, r. auto.
      * intro m. rewrite Hwarn. split.
        -- intros (f & i & Hin & H). exists f, i. split; [now right | exact H].
        -- intros (f & i & [Hin|Hin] & Hp & Hf & Hm).
           ++ injection Hin as <- <-. congruence.
           ++ exists f, i. auto.
Qed.

Lemma listdir_In (dir : Directory) (f : string) (img : image) :
  In (f, img) (listdir dir) <-> In (f, img) dir.
Proof.
  split; apply Permutation_in;
    [apply listdir_Permutation | apply Permutation_sym, listdir_Permutation].
Qed.

(** X6: The registry [load_known_faces] returns pairs an encoding with a name
    exactly for the files of the directory that have a picture extension
    and a face: the first encoding of the picture with the name made from
    the file name.  It warns exactly for the files with a picture extension
    and no face; any other file is passed over. *)
Theorem load_known_faces_entries (dir : Directory) :
  let r := load_known_faces dir in
  (forall e n, In (e, n) (combine (fst (fst r)) (snd (fst r))) <->
     exists f img rest,
       In (f, img) dir /\ is_picture_name f = true
       /\ face_encodings img None = e :: rest /\ n = name_of_file f)
  /\ (forall m, In m (snd r) <->
        exists f img,
          In (f, img) dir /\ is_picture_name f = true
          /\ face_encodings img None = [] /\ m = no_face_found f).
Proof.
  unfold load_known_faces.
  destruct (load_loop_entries (listdir dir) [] [] []) as (es & ns & ws & -> & Hent & Hwarn).
  simpl. split.
  - intros e n. rewrite Hent. split; intros (f & img & rest & Hin & H);
      exists f, img, rest; (split; [now apply listdir_In | exact H]).
  - intro m. rewrite Hwarn. split; intros (f & img & Hin & H);
      exists f, img; (split; [now apply listdir_In | exact H]).
Qed.

(** A file of the directory with a picture extension and a face is in the
    registry that is loaded from the directory. *)
Lemma load_known_faces_In (dir : Directory) (f : string) (img : image)
                          (e : encoding) (others : list encoding) :
  In (f, img) dir -> is_picture_name f = true ->
  face_encodings img None = e :: others ->
  In (e, name_of_file f)
     (combine (fst (fst (load_known_faces dir))) (snd (fst (load_known_faces dir)))).
Proof.
  intros Hin Hpic Hface. unfold load_known_faces.
  destruct (load_loop_entries (listdir dir) [] [] []) as (es & ns & ws & -> & Hent & _).
  simpl. apply Hent. exists f, img, others. repeat split; trivial.
  now apply listdir_In.
Qed.

(** X7: After "Register" with a name, a picture of the batch is in the
    registry that is loaded again when: it was loaded and a face was
    found in it, [cv2.imwrite] wrote it to a file of [known_faces] with a
    picture extension, a face is found in the picture as it was stored,
    the loop ran to its end, and no later picture of the batch was
    written to the same file.  The first encoding of the stored picture
    then stands in the registry with the name made from the file name. *)
Theorem registered_face_in_registry (name : string) (before after : list UploadedFile)
                                    (file : UploadedFile) (app : App)
                                    (pic : image) (filename : string)
                                    (e : encoding) (others : list encoding) :
  name <> "" ->
  load_temp_file file = Some pic ->
  has_face pic = true ->
  write_target (save_path name file) = written_as filename ->
  is_picture_name filename = true ->
  face_encodings (stored (save_path name file) pic) None = e :: others ->
  snd (register_loop name (before ++ file :: after) (known_faces_dir app) []) = completed ->
  (forall g img, In g after -> load_temp_file g = Some img -> has_face img = true ->
                 write_target (save_path name g) <> written_as filename) ->
  let app' := fst (register true name (before ++ file :: after) app) in
  In (e, name_of_file filename)
     (combine (known_encodings app') (known_names app')).
Proof.
  intros Hname Hload Hface Htarget Hpic Hstored Hend Hafter app'. subst app'.
  rewrite register_unfold.
  apply String.eqb_neq in Hname. rewrite Hname.
  replace (List.length (before ++ file :: after) =? 0) with false
    by (rewrite length_app; simpl; symmetry; apply Nat.eqb_neq; lia).
  cbn [andb negb]. cbv zeta. rewrite Hend. cbn [fst known_encodings known_names].
  apply load_known_faces_In with (img := stored (save_path name file) pic)
                                 (others := others); trivial.
  apply read_file_In.
  rewrite register_loop_app.
  pose proof (register_loop_app_completed _ _ _ _ _ Hend) as Hbefore.
  destruct (register_loop name before (known_faces_dir app) []) as [[dir1 shown1] ending1].
  simpl in Hbefore. subst ending1.
  cbn [register_loop]. rewrite Hload.
  rewrite has_face_length in Hface. apply negb_true_iff in Hface. rewrite Hface.
  unfold imwrite. rewrite Htarget.
  rewrite (register_loop_other_paths _ _ _ Hafter), read_file_write_file.
  now rewrite String.eqb_refl.
Qed.

(** ** Recognition *)

Lemma match_face_total (encs : list encoding) (names : list string)
                       (probe : encoding) :
  List.length encs = List.length names ->
  exists r, match_face encs names probe = Some r.
Proof.
  intro Hlen. unfold match_face.
  destruct (True_in (compare_faces encs probe tolerance)) eqn:E.
  - destruct (label_found encs names probe tolerance Hlen E)
      as (i & e & name & _ & _ & _ & _ & _ & Hlabel).
    now exists name.
  - exists "Unknown". unfold label. now rewrite E.
Qed.

Lemma box_names_total (encs : list encoding) (names : list string)
                      (encodings : list encoding) :
  List.length encs = List.length names ->
  exists ns, box_names encs names encodings = Some ns
             /\ List.length ns = List.length encodings.
Proof.
  intro Hlen. induction encodings as [|enc rest IH]; simpl.
  - now exists [].
  - destruct (match_face_total encs names enc Hlen) as (r & ->).
    destruct IH as (ns & -> & Hns). exists (r :: ns). simpl. now rewrite Hns.
Qed.

(** On a registry of two lists of one length the first loop never raises
    and adds one line per encoding. *)
Lemma recognize_loop_total (encs : list encoding) (names : list string)
                           (encodings : list encoding) :
  List.length encs = List.length names ->
  forall results w,
  exists results' w',
    recognize_loop encs names encodings results w = Some (results', w')
    /\ List.length results' = List.length results + List.length encodings.
Proof.
  intro Hlen. induction encodings as [|enc rest IH]; intros results w; simpl.
  - exists results, w. split; [reflexivity | lia].
  - destruct (True_in (compare_faces encs enc tolerance)) eqn:E.
    + destruct (label_found encs names enc tolerance Hlen E)
        as (i & e & name & Hi & _ & Hn & _).
      destruct (mark_attendance_step name w) as (b & w1 & Hcall & _).
      unfold bind, raise_or. rewrite Hi, Hn, Hcall.
      destruct (IH (results ++ [if b
                                then String.append "✓ " (String.append name " - Attendance Marked!")
                                else String.append "✓ " (String.append name " - Already Marked Today")]) w1)
        as (results' & w' & Hloop & Hl).
      exists results', w'. split; trivial.
      rewrite Hl, length_app. simpl. lia.
    + destruct (IH (results ++ ["✗ Unknown Person"]) w) as (results' & w' & Hloop & Hl).
      exists results', w'. split; trivial.
      rewrite Hl, length_app. simpl. lia.
Qed.

(** The marks made during the first loop only add lines at the end of
    the file; they keep it with at most one record per name and date when
    the names of the registry and the dates of the clock are texts that
    [pd.read_csv] gives back as texts. *)
Lemma recognize_loop_ledger (encs : list encoding) (names : list string)
                            (encodings : list encoding) :
  forall results w results' w',
    recognize_loop encs names encodings results w = Some (results', w') ->
    clock w' = clock w
    /\ (exists added, attendance_file w' = attendance_file w ++ added)
    /\ ((forall name, In name names -> stays_text name) ->
        (forall n, stays_text (strftime_date (clock w n))) ->
        at_most_once (attendance_file w) -> at_most_once (attendance_file w')).
Proof.
  induction encodings as [|enc rest IH]; intros results w results' w'; simpl.
  - intro H. injection H as _ <-. split; trivial.
    split; [exists []; now rewrite app_nil_r | trivial].
  - destruct (True_in (compare_faces encs enc tolerance)).
    + unfold bind, raise_or.
      destruct (index_True (compare_faces encs enc tolerance)) as [i|]; [|discriminate].
      destruct (nth_error names i) as [name|] eqn:Hname; [|discriminate].
      destruct (mark_attendance_step name w) as (b & w1 & Hcall & Hclk & Hstep).
      rewrite Hcall. intro Hloop.
      destruct (IH _ _ _ _ Hloop) as (Hclk' & (added & Happ) & Hinv).
      split; [congruence|]. split.
      * destruct Hstep as [(_ & Hsame & _) | (_ & _ & time & Hadd)].
        -- rewrite Hsame in Happ. now exists added.
        -- exists (mkRow name (today_of w) time :: added).
           rewrite Happ, Hadd, <- app_assoc. reflexivity.
      * intros Hnames Hdates H0.
        destruct (mark_attendance_invariant name w) as (b' & w1' & Hcall' & _ & _ & Hkeep).
        { apply Hnames. eapply nth_error_In. eassumption. }
        { apply Hdates. }
        rewrite Hcall in Hcall'. injection Hcall' as <- <-.
        apply Hinv; trivial.
        -- intro n. rewrite Hclk. apply Hdates.
        -- now apply Hkeep.
    + apply IH.
Qed.

(** C9: [recognize_faces] returns as the number of faces the number of
    face locations found, whatever the matches: there is one result line
    per face; with an empty registry and two faces the count is 2 and
    both lines are the one of an unknown person; with no face the count
    is 0 and there is no line, and nothing is raised. *)
Theorem recognize_face_count (encs : list encoding) (names : list string)
                             (img : image) (w : World) :
  (List.length encs = List.length names ->
   exists boxes results w',
     recognize_faces encs names img w
     = Some (img, boxes, results, List.length (face_locations img), w')
     /\ List.length results = List.length (face_locations img)
     /\ List.length boxes = List.length (face_locations img))
  /\ (List.length (face_locations img) = 2 ->
      exists boxes,
        recognize_faces [] names img w
        = Some (img, boxes, ["✗ Unknown Person"; "✗ Unknown Person"], 2, w))
  /\ (face_locations img = [] ->
      recognize_faces encs names img w = Some (img, [], [], 0, w)).
Proof.
  unfold recognize_faces. split; [|split].
  - intro Hlen.
    destruct (recognize_loop_total encs names
                (face_encodings img (Some (face_locations img))) Hlen [] w)
      as (results & w' & Hloop & Hl).
    destruct (box_names_total encs names
                (face_encodings img (Some (face_locations img))) Hlen)
      as (ns & Hns & Hnl).
    exists (combine (face_locations img) ns), results, w'.
    unfold bind, raise_or, ret. rewrite Hloop, Hns.
    rewrite face_encodings_length in Hl, Hnl. simpl in Hl.
    repeat split; trivial.
    rewrite length_combine, Hnl. apply Nat.min_id.
  - intro Htwo.
    pose proof (face_encodings_length img (face_locations img)) as Hl.
    rewrite Htwo in *.
    destruct (face_encodings img (Some (face_locations img)))
      as [|e1 [|e2 [|e3 rest]]]; try discriminate.
    eexists. unfold bind, raise_or, ret. simpl. reflexivity.
  - intro Hnone.
    pose proof (face_encodings_length img (face_locations img)) as Hl.
    rewrite Hnone in *.
    destruct (face_encodings img (Some [])) as [|e rest]; [|discriminate].
    reflexivity.
Qed.


(** ** More on recognition *)

Lemma far_no_match (encs : list encoding) (probe : encoding) :
  (forall e, In e encs -> (6 # 10 < distance e probe)%Q) ->
  True_in (compare_faces encs probe tolerance) = false.
Proof.
  intro Hfar.
  destruct (True_in (compare_faces encs probe tolerance)) eqn:E; trivial.
  apply compare_faces_True_in in E. destruct E as (e & Hin & Hle).
  specialize (Hfar e Hin). apply Qlt_not_le in Hfar. contradiction.
Qed.

Lemma recognize_loop_unknown (encs : list encoding) (names : list string)
                             (encodings : list encoding) :
  (forall probe e, In probe encodings -> In e encs ->
                   (6 # 10 < distance e probe)%Q) ->
  (forall results w,
      recognize_loop encs names encodings results w
      = Some (results ++ repeat unknown_line (List.length encodings), w))
  /\ box_names encs names encodings
     = Some (repeat "Unknown" (List.length encodings)).
Proof.
  induction encodings as [|probe rest IH]; intro Hfar; simpl.
  - split; trivial. intros results w. now rewrite app_nil_r.
  - assert (E : True_in (compare_faces encs probe tolerance) = false)
      by (apply far_no_match; intros e He; apply Hfar; [now left | trivial]).
    destruct IH as [Hloop Hnames].
    { intros p e Hp He. apply Hfar; [now right | trivial]. }
    split.
    + intros results w. rewrite E, Hloop, <- app_assoc. reflexivity.
    + unfold match_face, label. now rewrite E, Hnames.
Qed.

(** X8: A picture in which every face is farther than 0.6 from every known
    encoding leaves the ledger and the clock untouched: every line is the
    one of an unknown person and every box is named "Unknown". *)
Theorem unknown_faces_leave_ledger (encs : list encoding) (names : list string)
                                   (img : image) (w : World) :
  let encodings := face_encodings img (Some (face_locations img)) in
  (forall probe e, In probe encodings -> In e encs ->
                   (6 # 10 < distance e probe)%Q) ->
  recognize_faces encs names img w
  = Some (img,
          combine (face_locations img) (repeat "Unknown" (List.length encodings)),
          repeat unknown_line (List.length encodings),
          List.length (face_locations img), w).
Proof.
  intros encodings Hfar.
  destruct (recognize_loop_unknown encs names encodings Hfar) as [Hloop Hnames].
  unfold recognize_faces, bind, raise_or, ret. fold encodings.
  now rewrite Hloop, Hnames.
Qed.

(** The relation of the name drawn at a box and the result line of the
    same face. *)
Lemma recognize_loop_names (encs : list encoding) (names : list string)
                           (encodings : list encoding) :
  List.length encs = List.length names ->
  ~ In "Unknown" names ->
  forall results w,
  exists ns lines w',
    recognize_loop encs names encodings results w = Some (results ++ lines, w')
    /\ box_names encs names encodings = Some ns
    /\ Forall2 (fun name line =>
                  (name = "Unknown" /\ line = unknown_line)
                  \/ (name <> "Unknown" /\ In name names
                      /\ (line = marked_line name
                          \/ line = already_marked_line name))) ns lines.
Proof.
  intros Hlen Hunknown.
  induction encodings as [|probe rest IH]; intros results w; simpl.
  - exists [], [], w. rewrite app_nil_r. repeat split. constructor.
  - destruct (True_in (compare_faces encs probe tolerance)) eqn:E.
    + destruct (label_found encs names probe tolerance Hlen E)
        as (i & e & name & Hi & _ & Hn & _ & _ & Hlabel).
      destruct (mark_attendance_step name w) as (b & w1 & Hcall & _).
      unfold bind, raise_or, match_face. rewrite Hi, Hn, Hcall, Hlabel.
      destruct (IH (results ++ [if b then marked_line name
                                else already_marked_line name]) w1)
        as (ns & lines & w' & Hloop & -> & Hrel).
      exists (name :: ns),
             ((if b then marked_line name else already_marked_line name) :: lines), w'.
      split; [|split; trivial].
      * unfold marked_line, already_marked_line in *. simpl String.append in *.
        rewrite Hloop, <- app_assoc. reflexivity.
      * constructor; trivial. right.
        assert (Hin : In name names) by (eapply nth_error_In; eassumption).
        split; [intros ->; contradiction|]. split; trivial.
        destruct b; [now left | now right].
    + destruct (IH (results ++ [unknown_line]) w)
        as (ns & lines & w' & Hloop & Hnames & Hrel).
      exists ("Unknown" :: ns), (unknown_line :: lines), w'.
      split; [|split].
      * unfold unknown_line in *. rewrite Hloop, <- app_assoc. reflexivity.
      * unfold match_face, label. now rewrite E, Hnames.
      * constructor; trivial. now left.
Qed.

(** X9: On a registry of two lists of one length in which nobody is named
    "Unknown", [recognize_faces] never raises, and the name drawn at a
    box goes with the result line of the same face: "Unknown" with the
    line of an unknown person, and any other name, which is a name of the
    registry, with one of the two lines that carry this name. *)
Theorem drawn_names_match_lines (encs : list encoding) (names : list string)
                                (img : image) (w : World) :
  List.length encs = List.length names ->
  ~ In "Unknown" names ->
  exists ns results w',
    recognize_faces encs names img w
    = Some (img, combine (face_locations img) ns, results,
            List.length (face_locations img), w')
    /\ Forall2 (fun name line =>
                  (name = "Unknown" /\ line = unknown_line)
                  \/ (name <> "Unknown" /\ In name names
                      /\ (line = marked_line name
                          \/ line = already_marked_line name))) ns results.
Proof.
  intros Hlen Hunknown.
  destruct (recognize_loop_names encs names
              (face_encodings img (Some (face_locations img))) Hlen Hunknown [] w)
    as (ns & lines & w' & Hloop & Hnames & Hrel).
  exists ns, lines, w'. split; trivial.
  unfold recognize_faces, bind, raise_or, ret. now rewrite Hloop, Hnames.
Qed.

Lemma mark_attendance_recorded (name : string) (w : World) :
  exists b w',
    mark_attendance name w = Some (b, w')
    /\ clock w' = clock w
    /\ (exists added, attendance_file w' = attendance_file w ++ added)
    /\ recorded name (today_of w) (attendance_file w').
Proof.
  destruct (mark_attendance_step name w) as (b & w' & Hcall & Hclk & Hstep).
  exists b, w'. split; trivial. split; trivial.
  destruct Hstep as [(_ & -> & Hrec) | (_ & _ & time & ->)].
  - split; trivial. exists []. now rewrite app_nil_r.
  - split; [now eexists|].
    eexists. split; [apply in_or_app; right; now left | now split].
Qed.

Lemma recognize_loop_marks (encs : list encoding) (names : list string)
                           (d : string) (encodings : list encoding) :
  List.length encs = List.length names ->
  forall results w,
    (forall n, strftime_date (clock w n) = d) ->
    exists lines w',
      recognize_loop encs names encodings results w = Some (results ++ lines, w')
      /\ clock w' = clock w
      /\ (exists added, attendance_file w' = attendance_file w ++ added)
      /\ forall probe name,
           In probe encodings ->
           True_in (compare_faces encs probe tolerance) = true ->
           match_face encs names probe = Some name ->
           recorded name d (attendance_file w').
Proof.
  intro Hlen. induction encodings as [|probe0 rest IH]; intros results w Hclock; simpl.
  - exists [], w. rewrite app_nil_r. repeat split; trivial.
    + exists []. now rewrite app_nil_r.
    + intros probe name [].
  - destruct (True_in (compare_faces encs probe0 tolerance)) eqn:E.
    + destruct (label_found encs names probe0 tolerance Hlen E)
        as (i & e & name0 & Hi & _ & Hn & _ & _ & Hlabel).
      destruct (mark_attendance_recorded name0 w)
        as (b & w1 & Hcall & Hclk & (added1 & Hadd1) & Hrec).
      unfold bind, raise_or. rewrite Hi, Hn, Hcall.
      assert (Hclock1 : forall n, strftime_date (clock w1 n) = d)
        by (intro n; rewrite Hclk; apply Hclock).
      destruct (IH (results ++ [if b then marked_line name0
                                else already_marked_line name0]) w1 Hclock1)
        as (lines & w' & Hloop & Hclk' & (added & Hadd) & Hall).
      unfold marked_line, already_marked_line in Hloop.
      simpl String.append in *. rewrite Hloop, <- app_assoc.
      eexists. exists w'. split; [reflexivity|].
      split; [congruence|]. split.
      * exists (added1 ++ added). rewrite Hadd, Hadd1, app_assoc. reflexivity.
      * intros probe name [<-|Hin] Hmatch Hname.
        -- unfold match_face in Hname. rewrite Hlabel in Hname.
           injection Hname as <-. rewrite Hadd. apply recorded_app.
           unfold today_of in Hrec. now rewrite Hclock in Hrec.
        -- now apply (Hall probe name).
    + destruct (IH (results ++ [unknown_line]) w Hclock)
        as (lines & w' & Hloop & Hclk' & Hadd & Hall).
      unfold unknown_line in Hloop. rewrite Hloop, <- app_assoc.
      eexists. exists w'. split; [reflexivity|]. repeat split; trivial.
      intros probe name [<-|Hin] Hmatch Hname; [congruence|].
      now apply (Hall probe name).
Qed.

(** X10: While the clock stays on one date, every face of a picture that is
    within 0.6 of a known encoding has, when [recognize_faces] returns, a
    record in the ledger under the name given to it and that date. *)
Theorem recognized_faces_are_marked (encs : list encoding) (names : list string)
                                    (img : image) (w : World) (d : string) :
  List.length encs = List.length names ->
  (forall n, strftime_date (clock w n) = d) ->
  exists r w',
    recognize_faces encs names img w = Some (r, w')
    /\ forall probe name,
         In probe (face_encodings img (Some (face_locations img))) ->
         (exists e, In e encs /\ (distance e probe <= 6 # 10)%Q) ->
         match_face encs names probe = Some name ->
         recorded name d (attendance_file w').
Proof.
  intros Hlen Hclock.
  destruct (recognize_loop_marks encs names d
              (face_encodings img (Some (face_locations img))) Hlen [] w Hclock)
    as (lines & w' & Hloop & _ & _ & Hall).
  destruct (box_names_total encs names
              (face_encodings img (Some (face_locations img))) Hlen)
    as (ns & Hns & _).
  unfold recognize_faces, bind, raise_or, ret. rewrite Hloop, Hns.
  eexists. exists w'. split; [reflexivity|].
  intros probe name Hin Hex Hname. apply (Hall probe name); trivial.
  now apply compare_faces_True_in.
Qed.

Lemma recognize_faces_ledger (encs : list encoding) (names : list string) :
  List.length encs = List.length names ->
  forall img w,
  exists r w',
    recognize_faces encs names img w = Some (r, w')
    /\ clock w' = clock w
    /\ (exists added, attendance_file w' = attendance_file w ++ added)
    /\ ((forall name, In name names -> stays_text name) ->
        (forall n, stays_text (strftime_date (clock w n))) ->
        at_most_once (attendance_file w) -> at_most_once (attendance_file w')).
Proof.
  intros Hlen img w.
  destruct (recognize_loop_total encs names
              (face_encodings img (Some (face_locations img))) Hlen [] w)
    as (results & w' & Hloop & _).
  destruct (box_names_total encs names
              (face_encodings img (Some (face_locations img))) Hlen)
    as (ns & Hns & _).
  destruct (recognize_loop_ledger _ _ _ _ _ _ _ Hloop) as (Hclk & Hadd & Hinv).
  unfold recognize_faces, bind, raise_or, ret. rewrite Hloop, Hns.
  eexists. exists w'. split; [reflexivity|]. now repeat split.
Qed.

(** X11: The webcam loop, on a registry of two lists of one length and over
    any frames, ends without raising when the camera stops, and the file
    has only grown at its end.  When the names of the registry and the
    dates of the clock are texts that [pd.read_csv] gives back as texts,
    the file has at most one record per name and date if it had before. *)
Theorem webcam_loop_keeps_ledger (encs : list encoding) (names : list string)
                                 (frames : list image) :
  List.length encs = List.length names ->
  forall written w,
  exists written' w',
    webcam_loop encs names frames written w = Some (written', w')
    /\ (exists added, attendance_file w' = attendance_file w ++ added)
    /\ ((forall name, In name names -> stays_text name) ->
        (forall n, stays_text (strftime_date (clock w n))) ->
        at_most_once (attendance_file w) -> at_most_once (attendance_file w')).
Proof.
  intro Hlen. induction frames as [|frame rest IH]; intros written w; simpl.
  - exists written, w. split; [reflexivity|]. split; trivial.
    exists []. now rewrite app_nil_r.
  - destruct (recognize_faces_ledger encs names Hlen frame w)
      as (r & w1 & Hcall & Hclk & (added1 & Hadd1) & Hinv1).
    unfold bind at 1. rewrite Hcall.
    destruct (IH (if List.length (snd (fst r)) =? 0 then written
                  else written ++ "Detected:" :: snd (fst r)) w1)
      as (written' & w' & Hloop & (added & Hadd) & Hinv).
    exists written', w'. split; trivial. split.
    + exists (added1 ++ added). rewrite Hadd, Hadd1, app_assoc. reflexivity.
    + intros Hnames Hdates H0. apply Hinv; trivial.
      * intro n. rewrite Hclk. apply Hdates.
      * now apply Hinv1.
Qed.

Lemma recognize_faces_marks (encs : list encoding) (names : list string) (d : string) :
  List.length encs = List.length names ->
  (forall name, In name names -> stays_text name) ->
  stays_text d ->
  forall img w,
    (forall n, strftime_date (clock w n) = d) ->
    exists r w',
      recognize_faces encs names img w = Some (r, w')
      /\ clock w' = clock w
      /\ (exists added, attendance_file w' = attendance_file w ++ added)
      /\ (at_most_once (attendance_file w) -> at_most_once (attendance_file w'))
      /\ forall probe name,
           In probe (face_encodings img (Some (face_locations img))) ->
           True_in (compare_faces encs probe tolerance) = true ->
           match_face encs names probe = Some name ->
           recorded name d (attendance_file w').
Proof.
  intros Hlen Hnames Hd img w Hclock.
  destruct (recognize_loop_marks encs names d
              (face_encodings img (Some (face_locations img))) Hlen [] w Hclock)
    as (lines & w' & Hloop & Hclk & Hadd & Hall).
  destruct (box_names_total encs names
              (face_encodings img (Some (face_locations img))) Hlen)
    as (ns & Hns & _).
  destruct (recognize_loop_ledger _ _ _ _ _ _ _ Hloop) as (_ & _ & Hinv).
  unfold recognize_faces, bind, raise_or, ret. rewrite Hloop, Hns.
  eexists. exists w'. split; [reflexivity|]. repeat split; trivial.
  intro H0. apply Hinv; trivial. intro n. now rewrite Hclock.
Qed.

(** X12: Once a day in the webcam loop, for names and a date that
    [pd.read_csv] gives back as texts: while the clock stays on one date
    and the file starts with at most one record per name and date, every
    person recognised in any frame has, when the loop ends, exactly one
    record for that date, in however many frames the person was seen. *)
Theorem webcam_marks_once (encs : list encoding) (names : list string)
                          (d : string) (frames : list image) :
  List.length encs = List.length names ->
  (forall name, In name names -> stays_text name) ->
  stays_text d ->
  forall written w,
    (forall n, strftime_date (clock w n) = d) ->
    at_most_once (attendance_file w) ->
    exists written' w',
      webcam_loop encs names frames written w = Some (written', w')
      /\ forall frame probe name,
           In frame frames ->
           In probe (face_encodings frame (Some (face_locations frame))) ->
           (exists e, In e encs /\ (distance e probe <= 6 # 10)%Q) ->
           match_face encs names probe = Some name ->
           List.length (records_of name d (attendance_file w')) = 1.
Proof.
  intros Hlen Hnames Hd.
  assert (H : forall written w,
             (forall n, strftime_date (clock w n) = d) ->
             at_most_once (attendance_file w) ->
             exists written' w',
               webcam_loop encs names frames written w = Some (written', w')
               /\ (exists added, attendance_file w' = attendance_file w ++ added)
               /\ at_most_once (attendance_file w')
               /\ forall frame probe name,
                    In frame frames ->
                    In probe (face_encodings frame (Some (face_locations frame))) ->
                    True_in (compare_faces encs probe tolerance) = true ->
                    match_face encs names probe = Some name ->
                    recorded name d (attendance_file w')).
  { induction frames as [|frame0 rest IH]; intros written w Hclock Hinv0; simpl.
    - exists written, w. split; [reflexivity|]. split; [|split; trivial].
      + exists []. now rewrite app_nil_r.
      + intros frame probe name [].
    - destruct (recognize_faces_marks encs names d Hlen Hnames Hd frame0 w Hclock)
        as (r & w1 & Hcall & Hclk & (added1 & Hadd1) & Hinv1 & Hmarks1).
      unfold bind at 1. rewrite Hcall.
      assert (Hclock1 : forall n, strftime_date (clock w1 n) = d)
        by (intro n; rewrite Hclk; apply Hclock).
      destruct (IH (if List.length (snd (fst r)) =? 0 then written
                    else written ++ "Detected:" :: snd (fst r)) w1 Hclock1
                   (Hinv1 Hinv0))
        as (written' & w' & Hloop & (added & Hadd) & Hinv' & Hmarks).
      exists written', w'. split; trivial. split; [|split; trivial].
      + exists (added1 ++ added). rewrite Hadd, Hadd1, app_assoc. reflexivity.
      + intros frame probe name [<-|Hin] Hprobe Hmatch Hname.
        * rewrite Hadd. apply recorded_app. now apply (Hmarks1 probe name).
        * now apply (Hmarks frame probe name). }
  intros written w Hclock Hinv0.
  destruct (H written w Hclock Hinv0) as (written' & w' & Hloop & _ & Hinv' & Hmarks).
  exists written', w'. split; trivial.
  intros frame probe name Hframe Hprobe Hnear Hname.
  apply compare_faces_True_in in Hnear.
  pose proof (recorded_records_of _ _ _ (Hmarks frame probe name Hframe Hprobe Hnear Hname)).
  pose proof (Hinv' name d). lia.
Qed.

(** ** Registration, then recognition *)

(** X14: A person registered into an empty directory with one picture is
    recognised at once, when the picture was loaded with a face found in
    it, [cv2.imwrite] wrote it to a file of [known_faces] with a picture
    extension and a face is found in the picture as it was stored: for a
    picture showing the face with the encoding that was stored, at a
    distance of at most 0.6 from itself, the page names the person as the
    file name reads, writes the line of a new mark and adds today's
    record, if the file had none for the person and the day. *)
Theorem register_then_recognize (name : string) (file : UploadedFile)
                                (pic : image) (filename : string)
                                (e : encoding) (others : list encoding)
                                (img : image) (w : World) :
  name <> "" ->
  load_temp_file file = Some pic ->
  has_face pic = true ->
  write_target (save_path name file) = written_as filename ->
  is_picture_name filename = true ->
  face_encodings (stored (save_path name file) pic) None = e :: others ->
  face_encodings img (Some (face_locations img)) = [e] ->
  (distance e e <= 6 # 10)%Q ->
  ~ recorded (name_of_file filename) (today_of w) (attendance_file w) ->
  let person := name_of_file filename in
  let app' := fst (register true name [file] (mkApp [] [] [])) in
  known_encodings app' = [e] /\ known_names app' = [person]
  /\ exists w',
       recognize_faces (known_encodings app') (known_names app') img w
       = Some (img, combine (face_locations img) [person], [marked_line person],
               List.length (face_locations img), w')
       /\ recorded person (today_of w) (attendance_file w').
Proof.
  intros Hname Hload Hface Htarget Hpic Hstored Henc Hnear Hnew person app'.
  assert (Hlist : listdir [(filename, stored (save_path name file) pic)]
                  = [(filename, stored (save_path name file) pic)]).
  { apply Permutation_length_1_inv, Permutation_sym, listdir_Permutation. }
  assert (Happ : app' = mkApp [(filename, stored (save_path name file) pic)] [e] [person]).
  { unfold app'. rewrite register_unfold.
    apply String.eqb_neq in Hname. rewrite Hname.
    cbn [andb negb List.length Nat.eqb known_faces_dir register_loop]. rewrite Hload.
    rewrite has_face_length in Hface. apply negb_true_iff in Hface. rewrite Hface.
    unfold imwrite. rewrite Htarget. cbn [write_file]. cbv zeta. cbn [fst snd].
    unfold load_known_faces. rewrite Hlist. cbn [load_loop].
    rewrite Hpic, Hstored. reflexivity. }
  rewrite Happ. simpl. split; trivial. split; trivial.
  assert (Hflag : compare_faces [e] e tolerance = [true]).
  { unfold compare_faces, face_distance. simpl.
    apply Qle_bool_iff in Hnear. unfold tolerance. now rewrite Hnear. }
  apply not_recorded_any in Hnew. fold person in Hnew.
  unfold recognize_faces, bind, raise_or, ret. rewrite Henc.
  cbn [recognize_loop box_names]. unfold match_face, label. rewrite Hflag.
  cbn [True_in existsb orb index_True]. unfold bind, raise_or.
  cbn [nth_error]. rewrite mark_attendance_unfold, Hnew.
  eexists. split; [reflexivity|]. simpl.
  eexists. split; [apply in_or_app; right; now left | now split].
Qed.

End App.

(** ** The program on concrete pictures *)

Lemma toy_face_encodings_length (img : Toy.image) (locations : list box) :
  List.length (Toy.face_encodings img (Some locations)) = List.length locations.
Proof.
  unfold Toy.face_encodings.
  rewrite length_app, length_firstn, repeat_length, length_map. lia.
Qed.

Lemma toy_listdir_Permutation (dir : Directory Toy.image) :
  Permutation (Toy.listdir dir) dir.
Proof. apply Permutation_refl. Qed.

(** In the small world a text that is neither a marker of a missing value
    nor a whole number is read back as it was written. *)
Lemma toy_stays_text (s : string) :
  Toy.is_na s = false -> Toy.is_whole_number s = false ->
  stays_text Toy.keeps_text s.
Proof.
  intros Hna Hnum column Hin. unfold Toy.keeps_text. rewrite Hna. simpl.
  apply negb_true_iff.
  destruct (forallb _ column) eqn:E; trivial.
  rewrite forallb_forall in E. specialize (E s Hin).
  rewrite Hna, Hnum in E. discriminate.
Qed.

(** The name 123 comes back from the file as a number: the second call
    marks it again. *)
Lemma unread_name_marked_twice_witness :
  let row := mkRow "123" "2024-01-01" "12:00:00" in
  mark_attendance Toy.keeps_text "123" (Toy.world [])
  = Some (true, mkWorld [row] (fun _ => Toy.noon) 2)
  /\ mark_attendance Toy.keeps_text "123" (mkWorld [row] (fun _ => Toy.noon) 2)
     = Some (true, mkWorld [row; row] (fun _ => Toy.noon) 4)
  /\ records_of "123" "2024-01-01" [row; row] = [row; row].
Proof.
  intro row.
  apply (unread_name_marked_twice Toy.keeps_text (Toy.world []) "123").
  - intros (r & [] & _).
  - reflexivity.
  - reflexivity.
Defined.

Lemma unread_name_breaks_invariant_witness :
  exists w',
    mark_each Toy.keeps_text ["123"; "123"] (Toy.world []) = Some ([true; true], w')
    /\ (exists added, attendance_file w' = attendance_file (Toy.world []) ++ added)
    /\ List.length (records_of "123" "2024-01-01" (attendance_file w')) = 2
    /\ ~ at_most_once (attendance_file w').
Proof.
  apply (unread_name_breaks_invariant Toy.keeps_text (Toy.world []) "123" "2024-01-01").
  - intro n. reflexivity.
  - intros n d. simpl. lia.
  - intros (r & [] & _).
  - reflexivity.
Defined.

Lemma mark_attendance_once_text_witness :
  let row := mkRow "Alice" "2024-01-01" "12:00:00" in
  mark_attendance Toy.keeps_text "Alice" (Toy.world [row])
  = Some (false, mkWorld [row] (fun _ => Toy.noon) 1)
  /\ exists w1 w2,
       mark_attendance Toy.keeps_text "Alice" (Toy.world []) = Some (true, w1)
       /\ mark_attendance Toy.keeps_text "Alice" w1 = Some (false, w2)
       /\ records_of "Alice" "2024-01-01" (attendance_file w2) = [row].
Proof.
  intro row.
  assert (Hn : stays_text Toy.keeps_text "Alice") by (now apply toy_stays_text).
  assert (Hd : stays_text Toy.keeps_text "2024-01-01") by (now apply toy_stays_text).
  split.
  - apply (proj1 (mark_attendance_once_text Toy.keeps_text (Toy.world [row]) "Alice"
                    Hn Hd)).
    exists row. simpl. auto.
  - destruct (proj2 (mark_attendance_once_text Toy.keeps_text (Toy.world []) "Alice"
                       Hn Hd)) as [H1 H2].
    + intros (r & [] & _).
    + destruct (H2 eq_refl) as (w2 & Hcall & _ & Hone).
      eexists. exists w2. split; [exact H1|]. split; [exact Hcall | exact Hone].
Defined.

Lemma ledger_invariant_text_witness :
  exists results w',
    mark_each Toy.keeps_text ["Alice"; "Bob"; "Alice"] (Toy.world [])
    = Some (results, w')
    /\ at_most_once (attendance_file w').
Proof.
  destruct (ledger_invariant_text Toy.keeps_text ["Alice"; "Bob"; "Alice"] (Toy.world []))
    as (results & w' & Hrun & _ & Hinv).
  exists results, w'. split; trivial. apply Hinv.
  - intros name [<-|[<-|[<-|[]]]]; now apply toy_stays_text.
  - intro n. now apply toy_stays_text.
  - intros n d. simpl. lia.
Defined.

Lemma mark_attendance_frame_witness :
  exists b w',
    mark_attendance Toy.keeps_text "Alice"
      (Toy.world [mkRow "Bob" "2024-01-01" "09:00:00"]) = Some (b, w')
    /\ records_of "Bob" "2024-01-01" (attendance_file w')
       = records_of "Bob" "2024-01-01"
           (attendance_file (Toy.world [mkRow "Bob" "2024-01-01" "09:00:00"])).
Proof.
  apply (mark_attendance_frame Toy.keeps_text "Alice"
           (Toy.world [mkRow "Bob" "2024-01-01" "09:00:00"]) "Bob" "2024-01-01").
  left. discriminate.
Defined.

Lemma far_probe_unknown_witness :
  match_face Toy.encoding Toy.distance [1%Q] ["Alice"] 2%Q = Some "Unknown".
Proof.
  apply (far_probe_unknown Toy.encoding Toy.distance Toy.keeps_text [1%Q] ["Alice"] 2%Q).
  intros e [<-|[]]. reflexivity.
Defined.

(** Bob's vector is the closer one, Alice's is the first within 0.6: the
    face is marked and named as Alice. *)
Lemma first_match_wins_witness :
  (Toy.distance (3 # 2) (3 # 2) < Toy.distance 1 (3 # 2))%Q
  /\ match_face Toy.encoding Toy.distance [1%Q; 3 # 2] ["Alice"; "Bob"] (3 # 2)
     = Some "Alice"
  /\ recognize_loop Toy.encoding Toy.distance Toy.keeps_text
       [1%Q; 3 # 2] ["Alice"; "Bob"] [3 # 2] [] (Toy.world [])
     = Some ([marked_line "Alice"],
             mkWorld [mkRow "Alice" "2024-01-01" "12:00:00"] (fun _ => Toy.noon) 2)
  /\ box_names Toy.encoding Toy.distance [1%Q; 3 # 2] ["Alice"; "Bob"] [3 # 2]
     = Some ["Alice"].
Proof.
  split; [reflexivity|].
  destruct (first_match_wins Toy.encoding Toy.distance Toy.keeps_text
              [1%Q; 3 # 2] ["Alice"; "Bob"] (3 # 2))
    as (i & e & name & _ & _ & _ & _ & Hname & Hloop & Hbox).
  - reflexivity.
  - exists 1%Q. split; [now left|]. vm_compute. discriminate.
  - assert (Halice : name = "Alice") by (vm_compute in Hname; congruence).
    subst name. split; [exact Hname|]. split.
    + destruct (Hloop [] [] (Toy.world [])) as (marked & w' & Hcall & Heq).
      vm_compute in Hcall. injection Hcall as <- <-.
      etransitivity; [exact Heq | reflexivity].
    + etransitivity; [exact (Hbox []) | reflexivity].
Defined.

Lemma match_face_in_registry_witness :
  exists r,
    match_face Toy.encoding Toy.distance [1%Q; 3 # 2] ["Alice"; "Bob"] 9%Q = Some r
    /\ (r = "Unknown" \/ In r ["Alice"; "Bob"]).
Proof.
  apply (match_face_in_registry Toy.encoding Toy.distance
           [1%Q; 3 # 2] ["Alice"; "Bob"] 9%Q).
  reflexivity.
Defined.

Lemma registry_shape_witness :
  let dir := [("alice_smith.jpg", [Toy.face_at 0 1%Q]); ("notes.txt", []);
              ("bob.PNG", [Toy.face_at 0 (3 # 2)])] in
  let encs := fst (fst (load_known_faces _ _ Toy.face_encodings Toy.title Toy.listdir dir)) in
  let names := snd (fst (load_known_faces _ _ Toy.face_encodings Toy.title Toy.listdir dir)) in
  exists i name,
    index_True (compare_faces _ Toy.distance encs (3 # 2) (1 # 10)) = Some i
    /\ i < List.length names
    /\ nth_error names i = Some name
    /\ label names (compare_faces _ Toy.distance encs (3 # 2) (1 # 10)) = Some name.
Proof.
  intros dir encs names.
  apply (proj2 (registry_shape Toy.image Toy.encoding Toy.face_encodings Toy.distance
                  Toy.title Toy.listdir dir (3 # 2) (1 # 10))).
  reflexivity.
Defined.

(** A picture of 900 bytes without a face, uploaded before a larger one
    with a face: the page ends with the exception, without a message for
    the first picture and without the second picture in the directory. *)
Lemma small_upload_stops_register_witness :
  let z := mkUpload Toy.image "z.png" 900 (Some []) in
  let b := mkUpload Toy.image "b.png" 250000 (Some [Toy.face_at 0 2%Q]) in
  register _ _ Toy.face_encodings Toy.buffer_size Toy.write_target Toy.stored
           Toy.title Toy.listdir true "Bob" [z; b] (mkApp _ _ [] [] [])
  = (mkApp _ _ [] [] [], [st_exception]).
Proof.
  intros z b.
  apply (proj2 (small_upload_stops_register
                  Toy.image Toy.encoding Toy.face_encodings Toy.buffer_size
                  Toy.write_target Toy.stored Toy.title Toy.listdir "Bob" [] [b] z [] []
                  (mkApp _ _ [] [] []) ltac:(vm_compute; discriminate))).
  discriminate.
Defined.

Lemma faceless_picture_skipped_witness :
  let a := mkUpload Toy.image "a.jpg" 250000 (Some [Toy.face_at 0 1%Q]) in
  let z := mkUpload Toy.image "z.png" 250000 (Some []) in
  let b := mkUpload Toy.image "b.png" 250000 (Some [Toy.face_at 0 2%Q]) in
  let loop := register_loop _ _ Toy.face_encodings Toy.buffer_size Toy.write_target
                            Toy.stored "Bob" in
  fst (fst (loop ([a] ++ z :: [b]) [] [])) = fst (fst (loop ([a] ++ [b]) [] [])).
Proof.
  intros a z b loop.
  apply (proj1 (proj2 (proj2 (faceless_picture_skipped
                         Toy.image Toy.encoding Toy.face_encodings Toy.buffer_size
                         Toy.write_target Toy.stored Toy.title Toy.listdir
                         "Bob" [a] [b] z [] [] true (mkApp _ _ [] [] [])
                         eq_refl eq_refl)))).
Defined.

Lemma recognize_face_count_witness :
  let img := [Toy.face_at 0 1%Q; Toy.face_at 20 2%Q] in
  exists boxes,
    recognize_faces _ _ Toy.face_locations Toy.face_encodings Toy.distance
                    Toy.keeps_text [] [] img (Toy.world [])
    = Some (img, boxes, ["✗ Unknown Person"; "✗ Unknown Person"], 2, Toy.world []).
Proof.
  intro img.
  apply (proj1 (proj2 (recognize_face_count Toy.image Toy.encoding Toy.face_locations
                         Toy.face_encodings Toy.distance toy_face_encodings_length
                         Toy.keeps_text [] [] img (Toy.world [])))).
  reflexivity.
Defined.

(** C7: a batch in which no picture has a face shows, after the error of
    each picture, the success message all the same: the message is shown
    after the loop whatever the loop did. *)
Theorem register_without_face_shows_success :
  register Toy.image Toy.encoding Toy.face_encodings Toy.buffer_size Toy.write_target
           Toy.stored Toy.title Toy.listdir true "Alice"
           [mkUpload _ "a.jpg" 250000 (Some [])] (mkApp _ _ [] [] [])
  = (mkApp _ _ [] [] [],
     [st_error "No face detected in a.jpg";
      st_success "Alice registered successfully!"]).
Proof. reflexivity. Qed.

(** C8: a second picture of a name under the same extension is written
    over the first: after it the registry holds the new vector for the
    name and no longer the one stored before. *)
Theorem register_again_replaces_vector :
  let reg := register Toy.image Toy.encoding Toy.face_encodings Toy.buffer_size
                      Toy.write_target Toy.stored Toy.title Toy.listdir true "Alice" in
  let a := mkUpload _ "a.jpg" 250000 (Some [Toy.face_at 0 1%Q]) in
  let b := mkUpload _ "b.jpg" 250000 (Some [Toy.face_at 0 5%Q]) in
  let app1 := fst (reg [a] (mkApp _ _ [] [] [])) in
  let app2 := fst (reg [b] app1) in
  let both := fst (reg [a; b] (mkApp _ _ [] [] [])) in
  vectors_of _ "Alice" (known_encodings _ _ app1) (known_names _ _ app1) = [1%Q]
  /\ known_faces_dir _ _ app2 = [("Alice.jpg", [Toy.face_at 0 5%Q])]
  /\ vectors_of _ "Alice" (known_encodings _ _ app2) (known_names _ _ app2) = [5%Q]
  /\ vectors_of _ "Alice" (known_encodings _ _ both) (known_names _ _ both) = [5%Q].
Proof. repeat split. Qed.

Lemma registered_name_round_trip_witness :
  name_of_file Toy.title (save_path Toy.image "mary ann_lee" (mkUpload _ "IMG.7.JPG" 250000 None))
  = Toy.title (Str.replace "_" " " "mary ann_lee").
Proof.
  apply (registered_name_round_trip Toy.image Toy.title "mary ann_lee"
           (mkUpload _ "IMG.7.JPG" 250000 None)).
  - vm_compute. intuition discriminate.
  - exists "m"%char. split; [simpl; auto | discriminate].
Defined.

(** With a directory separator the name does not come back: for the name
    a/ the path is a/.jpg, in which [os.path.splitext] finds no
    extension. *)
Lemma name_with_separator_keeps_extension :
  name_of_file Toy.title (save_path Toy.image "a/" (mkUpload _ "x.jpg" 250000 None))
  = "A/.Jpg".
Proof. reflexivity. Qed.

Lemma saved_picture_is_read_witness :
  is_picture_name (save_path Toy.image "mary ann" (mkUpload _ "IMG.7.JPG" 250000 None))
  = true.
Proof.
  apply (saved_picture_is_read Toy.image "mary ann" (mkUpload _ "IMG.7.JPG" 250000 None)).
  right. left. reflexivity.
Defined.

Lemma register_loop_writes_and_errors_witness :
  let a := mkUpload Toy.image "a.jpg" 250000 (Some [Toy.face_at 0 1%Q]) in
  let z := mkUpload Toy.image "z.png" 250000 (Some []) in
  let b := mkUpload Toy.image "b.png" 250000 (Some [Toy.face_at 0 2%Q]) in
  register_loop _ _ Toy.face_encodings Toy.buffer_size Toy.write_target Toy.stored
                "Bob" [a; z; b] [] []
  = ([("Bob.jpg", [Toy.face_at 0 1%Q]); ("Bob.png", [Toy.face_at 0 2%Q])],
     [st_error "No face detected in z.png"], completed).
Proof.
  intros a z b.
  apply (register_loop_writes_and_errors
           Toy.image Toy.encoding Toy.face_encodings Toy.buffer_size
           Toy.write_target Toy.stored "Bob" [a; z; b] []).
  - intros f [<-|[<-|[<-|[]]]]; discriminate.
  - intros f [<-|[<-|[<-|[]]]]; discriminate.
Defined.

Lemma same_extension_one_file_witness :
  List.length
    (fst (fst (register_loop _ _ Toy.face_encodings Toy.buffer_size Toy.write_target
                 Toy.stored "Alice"
                 [mkUpload _ "a.jpg" 250000 (Some [Toy.face_at 0 1%Q]);
                  mkUpload _ "b.jpg" 250000 (Some [Toy.face_at 0 5%Q])] [] [])))
  <= 1.
Proof.
  apply (same_extension_one_file Toy.image Toy.encoding Toy.face_encodings
           Toy.buffer_size Toy.write_target Toy.stored "Alice" "jpg"
           [mkUpload _ "a.jpg" 250000 (Some [Toy.face_at 0 1%Q]);
            mkUpload _ "b.jpg" 250000 (Some [Toy.face_at 0 5%Q])] []).
  intros f [<-|[<-|[]]]; reflexivity.
Defined.

Lemma load_known_faces_entries_witness :
  let dir := [("alice_smith.jpg", [Toy.face_at 0 1%Q]); ("notes.txt", []);
              ("empty.png", [])] in
  let r := load_known_faces _ _ Toy.face_encodings Toy.title Toy.listdir dir in
  In (1%Q, "Alice Smith") (combine (fst (fst r)) (snd (fst r)))
  /\ In (no_face_found "empty.png") (snd r).
Proof.
  intros dir r.
  destruct (load_known_faces_entries Toy.image Toy.encoding Toy.face_encodings
              Toy.title Toy.listdir toy_listdir_Permutation dir) as [Hent Hwarn].
  split.
  - apply Hent. exists "alice_smith.jpg", [Toy.face_at 0 1%Q], [].
    repeat split. now left.
  - apply Hwarn. exists "empty.png", []. repeat split. right. right. now left.
Defined.

(** The name a/b: nothing is written, and the page says "registered". *)
Lemma unwritten_pictures_report_success_witness :
  let file := mkUpload Toy.image "a.jpg" 250000 (Some [Toy.face_at 0 1%Q]) in
  register _ _ Toy.face_encodings Toy.buffer_size Toy.write_target Toy.stored
           Toy.title Toy.listdir true "a/b" [file] (mkApp _ _ [] [] [])
  = (mkApp _ _ [] [] [], [st_success "a/b registered successfully!"])
  /\ In (st_success "a/b registered successfully!")
        (snd (register _ _ Toy.face_encodings Toy.buffer_size Toy.write_target
                       Toy.stored Toy.title Toy.listdir true "a/b" [file] (mkApp _ _ [] [] []))).
Proof.
  intro file. split; [reflexivity|].
  apply (unwritten_pictures_report_success
           Toy.image Toy.encoding Toy.face_encodings Toy.buffer_size Toy.write_target
           Toy.stored Toy.title Toy.listdir "a/b" [file] (mkApp _ _ [] [] [])).
  - discriminate.
  - discriminate.
  - intros f [<-|[]]. discriminate.
  - intros f [<-|[]]. reflexivity.
Defined.

Lemma registered_face_in_registry_witness :
  let file := mkUpload Toy.image "a.jpg" 250000 (Some [Toy.face_at 0 1%Q]) in
  let app' := fst (register _ _ Toy.face_encodings Toy.buffer_size Toy.write_target
                            Toy.stored Toy.title Toy.listdir true "alice smith"
                            ([] ++ file :: []) (mkApp _ _ [] [] [])) in
  In (1%Q, "Alice Smith") (combine (known_encodings _ _ app') (known_names _ _ app')).
Proof.
  intros file app'.
  apply (registered_face_in_registry
           Toy.image Toy.encoding Toy.face_encodings Toy.buffer_size Toy.write_target
           Toy.stored Toy.title Toy.listdir toy_listdir_Permutation
           "alice smith" [] [] file (mkApp _ _ [] [] [])
           [Toy.face_at 0 1%Q] "alice_smith.jpg" 1%Q []).
  - discriminate.
  - reflexivity.
  - reflexivity.
  - reflexivity.
  - reflexivity.
  - reflexivity.
  - reflexivity.
  - intros g img [].
Defined.

Lemma unknown_faces_leave_ledger_witness :
  recognize_faces _ _ Toy.face_locations Toy.face_encodings Toy.distance Toy.keeps_text
                  [1%Q] ["Alice"] [Toy.face_at 0 5%Q; Toy.face_at 20 9%Q]
                  (Toy.world [])
  = Some ([Toy.face_at 0 5%Q; Toy.face_at 20 9%Q],
          combine (Toy.face_locations [Toy.face_at 0 5%Q; Toy.face_at 20 9%Q])
                  (repeat "Unknown" 2),
          repeat unknown_line 2, 2, Toy.world []).
Proof.
  apply (unknown_faces_leave_ledger Toy.image Toy.encoding Toy.face_locations
           Toy.face_encodings Toy.distance Toy.keeps_text [1%Q] ["Alice"]
           [Toy.face_at 0 5%Q; Toy.face_at 20 9%Q] (Toy.world [])).
  intros probe e Hprobe [<-|[]].
  destruct Hprobe as [<-|[<-|[]]]; reflexivity.
Defined.

Lemma drawn_names_match_lines_witness :
  exists ns results w',
    recognize_faces _ _ Toy.face_locations Toy.face_encodings Toy.distance Toy.keeps_text
                    [1%Q] ["Alice"] [Toy.face_at 0 1%Q; Toy.face_at 20 9%Q]
                    (Toy.world [])
    = Some ([Toy.face_at 0 1%Q; Toy.face_at 20 9%Q],
            combine (Toy.face_locations [Toy.face_at 0 1%Q; Toy.face_at 20 9%Q]) ns,
            results, 2, w')
    /\ Forall2 (fun name line =>
                  (name = "Unknown" /\ line = unknown_line)
                  \/ (name <> "Unknown" /\ In name ["Alice"]
                      /\ (line = marked_line name
                          \/ line = already_marked_line name))) ns results.
Proof.
  apply (drawn_names_match_lines Toy.image Toy.encoding Toy.face_locations
           Toy.face_encodings Toy.distance Toy.keeps_text [1%Q] ["Alice"]
           [Toy.face_at 0 1%Q; Toy.face_at 20 9%Q] (Toy.world [])).
  - reflexivity.
  - intros [H|[]]. discriminate.
Defined.

Lemma recognized_faces_are_marked_witness :
  exists r w',
    recognize_faces _ _ Toy.face_locations Toy.face_encodings Toy.distance Toy.keeps_text
                    [1%Q] ["Alice"] [Toy.face_at 0 1%Q] (Toy.world [])
    = Some (r, w')
    /\ recorded "Alice" "2024-01-01" (attendance_file w').
Proof.
  destruct (recognized_faces_are_marked Toy.image Toy.encoding Toy.face_locations
              Toy.face_encodings Toy.distance Toy.keeps_text [1%Q] ["Alice"]
              [Toy.face_at 0 1%Q] (Toy.world []) "2024-01-01")
    as (r & w' & Hcall & Hmarks).
  - reflexivity.
  - intro n. reflexivity.
  - exists r, w'. split; trivial.
    apply (Hmarks 1%Q "Alice").
    + now left.
    + exists 1%Q. split; [now left | vm_compute; discriminate].
    + reflexivity.
Defined.

Lemma webcam_loop_keeps_ledger_witness :
  exists written' w',
    webcam_loop _ _ Toy.face_locations Toy.face_encodings Toy.distance Toy.keeps_text
                [1%Q] ["Alice"] [[Toy.face_at 0 1%Q]; []; [Toy.face_at 0 1%Q]]
                [] (Toy.world [])
    = Some (written', w')
    /\ (exists added, attendance_file w' = attendance_file (Toy.world []) ++ added)
    /\ at_most_once (attendance_file w').
Proof.
  destruct (webcam_loop_keeps_ledger Toy.image Toy.encoding Toy.face_locations
              Toy.face_encodings Toy.distance Toy.keeps_text [1%Q] ["Alice"]
              [[Toy.face_at 0 1%Q]; []; [Toy.face_at 0 1%Q]] eq_refl [] (Toy.world []))
    as (written' & w' & Hloop & Hadd & Hinv).
  exists written', w'. split; trivial. split; trivial. apply Hinv.
  - intros name [<-|[]]. now apply toy_stays_text.
  - intro n. now apply toy_stays_text.
  - intros n d. simpl. lia.
Defined.

Lemma webcam_marks_once_witness :
  exists written' w',
    webcam_loop _ _ Toy.face_locations Toy.face_encodings Toy.distance Toy.keeps_text
                [1%Q] ["Alice"] [[Toy.face_at 0 1%Q]; []; [Toy.face_at 0 1%Q]]
                [] (Toy.world [])
    = Some (written', w')
    /\ List.length (records_of "Alice" "2024-01-01" (attendance_file w')) = 1.
Proof.
  destruct (webcam_marks_once Toy.image Toy.encoding Toy.face_locations
              Toy.face_encodings Toy.distance Toy.keeps_text [1%Q] ["Alice"]
              "2024-01-01" [[Toy.face_at 0 1%Q]; []; [Toy.face_at 0 1%Q]]
              eq_refl) with (written := @nil string) (w := Toy.world [])
    as (written' & w' & Hloop & Hone).
  - intros name [<-|[]]. now apply toy_stays_text.
  - now apply toy_stays_text.
  - intro n. reflexivity.
  - intros n d. simpl. lia.
  - exists written', w'. split; trivial.
    apply (Hone [Toy.face_at 0 1%Q] 1%Q "Alice").
    + now left.
    + now left.
    + exists 1%Q. split; [now left | vm_compute; discriminate].
    + reflexivity.
Defined.

Lemma register_then_recognize_witness :
  let file := mkUpload Toy.image "a.jpg" 250000 (Some [Toy.face_at 0 1%Q]) in
  let app' := fst (register _ _ Toy.face_encodings Toy.buffer_size Toy.write_target
                            Toy.stored Toy.title Toy.listdir true "alice smith" [file]
                            (mkApp _ _ [] [] [])) in
  known_encodings _ _ app' = [1%Q] /\ known_names _ _ app' = ["Alice Smith"]
  /\ exists w',
       recognize_faces _ _ Toy.face_locations Toy.face_encodings Toy.distance
                       Toy.keeps_text
                       (known_encodings _ _ app') (known_names _ _ app')
                       [Toy.face_at 7 1%Q] (Toy.world [])
       = Some ([Toy.face_at 7 1%Q],
               combine (Toy.face_locations [Toy.face_at 7 1%Q]) ["Alice Smith"],
               [marked_line "Alice Smith"], 1, w')
       /\ recorded "Alice Smith" "2024-01-01" (attendance_file w').
Proof.
  intros file app'.
  apply (register_then_recognize
           Toy.image Toy.encoding Toy.face_locations Toy.face_encodings Toy.distance
           Toy.keeps_text Toy.buffer_size Toy.write_target Toy.stored Toy.title Toy.listdir
           toy_listdir_Permutation "alice smith" file
           [Toy.face_at 0 1%Q] "alice_smith.jpg" 1%Q []
           [Toy.face_at 7 1%Q] (Toy.world [])).
  - discriminate.
  - reflexivity.
  - reflexivity.
  - reflexivity.
  - reflexivity.
  - reflexivity.
  - reflexivity.
  - vm_compute. discriminate.
  - intros (r & [] & _).
Defined.
